(** * helpdesk_AI: the retrieval service

    A shallow embedding of [class RAGService], the module the routes
    require as [services/ragService]: the chunker
    [splitIntoChunks], [cosineSimilarity], the top-k selection of
    [searchRelevantContext] and the life cycle of the in-memory index
    ([initialize], [loadAndProcessPDF], [generateChunkEmbeddings],
    [refreshVectorStore], [getRelevantSections]).

    - JavaScript strings are sequences of UTF-16 code units ([jsstring]).
    - Array indices and the chunking parameters are integers ([Z]); the
      accessors [slice], [lastIndexOf], [trim] follow ECMAScript, negative
      indices included.
    - Numbers that carry similarity scores are kept behind the interface
      [Num]; its instance [Float64] is IEEE 754 binary64, the arithmetic
      JavaScript runs, and [Real] is exact arithmetic.
    - [async] methods are state-passing functions over the service object
      and the outside world (file system, PDF parser, embedding provider);
      an exception does not undo the assignments made before it. *)

From Stdlib Require Import List ZArith NArith Lia Bool Arith.
From Stdlib Require String.
Import String.StringSyntax.
From Stdlib Require Import Ascii DecimalString.
From Stdlib Require Import Sorted Permutation.
From Stdlib Require Import Floats.
From Stdlib Require Import Reals Lra.
Import ListNotations.
Delimit Scope string_scope with string.

Set Implicit Arguments.

(* ================================================================== *)
(** * Part I: definitions *)
(* ================================================================== *)

(** ** JavaScript strings *)

Module JS.

(** A string is its sequence of UTF-16 code units. *)
Definition jsstring := list N.

(** A literal of the source, written in ASCII. *)
Definition lit (s : String.string) : jsstring :=
  map N_of_ascii (String.list_ascii_of_string s).
Arguments lit s%_string.

Definition period : N := 46%N.
Definition newline : N := 10%N.

(** [s.length] as the integer the loop arithmetic uses. *)
Definition len (s : jsstring) : Z := Z.of_nat (length s).

(** Relative index of [slice]: a negative index counts from the end. *)
Definition clampIndex (n i : Z) : Z :=
  if (i <? 0)%Z then Z.max (n + i) 0 else Z.min i n.

(** [s.slice(a, b)]. *)
Definition slice (s : jsstring) (a b : Z) : jsstring :=
  let from := clampIndex (len s) a in
  let to := clampIndex (len s) b in
  firstn (Z.to_nat (to - from)) (skipn (Z.to_nat from) s).

(** [s.lastIndexOf(c)] for a one-unit search string: the scan keeps the
    last position seen, [-1] when there is none. *)
Fixpoint lastIndexFrom (c : N) (s : jsstring) (i acc : Z) : Z :=
  match s with
  | [] => acc
  | x :: s' => lastIndexFrom c s' (i + 1)%Z (if N.eqb x c then i else acc)
  end.

Definition lastIndexOf (s : jsstring) (c : N) : Z :=
  lastIndexFrom c s 0%Z (-1)%Z.

(** WhiteSpace and LineTerminator of ECMAScript: what [trim] strips and
    what the class [\s] matches. *)
Definition isWhiteSpace (c : N) : bool :=
  ((9 <=? c) && (c <=? 13) || (c =? 32) || (c =? 160) || (c =? 5760)
   || (8192 <=? c) && (c <=? 8202) || (c =? 8232) || (c =? 8233)
   || (c =? 8239) || (c =? 8287) || (c =? 12288) || (c =? 65279))%N.

Fixpoint trimStart (s : jsstring) : jsstring :=
  match s with
  | [] => []
  | x :: s' => if isWhiteSpace x then trimStart s' else s
  end.

Definition trimEnd (s : jsstring) : jsstring := rev (trimStart (rev s)).

Definition trim (s : jsstring) : jsstring := trimEnd (trimStart s).

(** [s.split(/\s+/)]: [cur] is the piece being read (reversed) and
    [inGap] tells that the last unit read was white space. *)
Fixpoint splitGaps (s cur : jsstring) (inGap : bool) : list jsstring :=
  match s with
  | [] => [rev cur]
  | x :: s' =>
      if isWhiteSpace x
      then if inGap then splitGaps s' cur true
           else rev cur :: splitGaps s' [] true
      else splitGaps s' (x :: cur) false
  end.

Definition splitWhiteSpace (s : jsstring) : list jsstring :=
  splitGaps s [] false.

(** [parts.join(sep)]. *)
Fixpoint join (sep : jsstring) (parts : list jsstring) : jsstring :=
  match parts with
  | [] => []
  | [p] => p
  | p :: rest => p ++ sep ++ join sep rest
  end.

(** [arr.slice(0, k)] on an array. *)
Definition arraySlice0 {A : Type} (l : list A) (k : Z) : list A :=
  firstn (Z.to_nat (clampIndex (Z.of_nat (length l)) k)) l.

(** Decimal rendering of a non-negative integer in a template literal. *)
Definition ofNat (n : nat) : jsstring :=
  lit (NilEmpty.string_of_uint (Nat.to_uint n)).

End JS.
Import JS.

(** ** Completions *)

(** What a call comes to: a value, a thrown error, or no completion at
    all (a [while] loop that never exits). *)
Definition JsError := String.string.

Inductive Outcome (A : Type) : Type :=
| Return (a : A)
| Throw (e : JsError)
| Diverge.
Arguments Return {A} a.
Arguments Throw {A} e.
Arguments Diverge {A}.

(** ** The chunker: [splitIntoChunks] *)

Module Chunker.

(** [breakPoint > start + chunkSize * 0.7], with 0.7 read as 7/10.  On
    doubles the product [1000 * 0.7], the only one the service forms, is
    exactly 700 ([Float64_1000_times_07] below), and sums and comparisons
    of integers of this size are exact. *)
Definition beyondThreshold (breakPoint start chunkSize : Z) : bool :=
  (10 * start + 7 * chunkSize <? 10 * breakPoint)%Z.

(** One pass through the body of the [while] loop, up to the push: the
    chunk cut and the next value of [start]. *)
Definition splitStep (text : jsstring) (chunkSize overlap start : Z)
  : jsstring * Z :=
  let end_ := Z.min (start + chunkSize) (len text) in
  let chunk := slice text start end_ in
  if (end_ <? len text)%Z then
    let lastPeriod := lastIndexOf chunk period in
    let lastNewline := lastIndexOf chunk newline in
    let breakPoint := Z.max lastPeriod lastNewline in
    if beyondThreshold breakPoint start chunkSize
    then (slice text start (start + breakPoint + 1),
          (start + breakPoint + 1 - overlap)%Z)
    else (chunk, (end_ - overlap)%Z)
  else (chunk, end_).

(** The push at the end of the body. *)
Definition pushChunk (chunks : list jsstring) (chunk : jsstring)
  : list jsstring :=
  if (50 <? len (trim chunk))%Z then chunks ++ [trim chunk] else chunks.

(** The [while (start < text.length)] loop; [None] when [fuel] passes
    were not enough to leave it. *)
Fixpoint splitLoop (fuel : nat) (text : jsstring) (chunkSize overlap : Z)
  (start : Z) (chunks : list jsstring) : option (list jsstring) :=
  match fuel with
  | O => None
  | S fuel' =>
      if (start <? len text)%Z then
        let '(chunk, start') := splitStep text chunkSize overlap start in
        splitLoop fuel' text chunkSize overlap start' (pushChunk chunks chunk)
      else Some chunks
  end.

Definition splitIntoChunks (fuel : nat) (text : jsstring)
  (chunkSize overlap : Z) : option (list jsstring) :=
  splitLoop fuel text chunkSize overlap 0%Z [].

(** The rule of the design document, section 4.1 step 3, in its words:
    the rightmost period or newline of the window [[start, end)] as a
    position of the text, no position when the window has neither. *)
Definition rightmostBreak (text : jsstring) (start end_ : Z) : option Z :=
  let window := slice text start end_ in
  let rel := Z.max (lastIndexOf window period) (lastIndexOf window newline) in
  if (rel <? 0)%Z then None else Some (start + rel)%Z.

Definition splitStep_spec (text : jsstring) (chunkSize overlap start : Z)
  : jsstring * Z :=
  let end_ := Z.min (start + chunkSize) (len text) in
  if (end_ <? len text)%Z then
    match rightmostBreak text start end_ with
    | Some breakPoint =>
        if beyondThreshold breakPoint start chunkSize
        then (slice text start (breakPoint + 1),
              (breakPoint + 1 - overlap)%Z)
        else (slice text start end_, (end_ - overlap)%Z)
    | None => (slice text start end_, (end_ - overlap)%Z)
    end
  else (slice text start end_, end_).

Fixpoint splitLoop_spec (fuel : nat) (text : jsstring) (chunkSize overlap : Z)
  (start : Z) (chunks : list jsstring) : option (list jsstring) :=
  match fuel with
  | O => None
  | S fuel' =>
      if (start <? len text)%Z then
        let '(chunk, start') := splitStep_spec text chunkSize overlap start in
        splitLoop_spec fuel' text chunkSize overlap start'
          (pushChunk chunks chunk)
      else Some chunks
  end.

(** The call as a completion.  The body of [splitIntoChunks] has no
    [throw]; a loop not left within [fuel] passes has not completed. *)
Definition splitCompletion (fuel : nat) (text : jsstring)
  (chunkSize overlap : Z) : Outcome (list jsstring) :=
  match splitIntoChunks fuel text chunkSize overlap with
  | Some chunks => Return chunks
  | None => Diverge
  end.

(** "Fails fast with a configuration error": some number of passes ends
    in a thrown error. *)
Definition failsFast (text : jsstring) (chunkSize overlap : Z) : Prop :=
  exists fuel e, splitCompletion fuel text chunkSize overlap = Throw e.

End Chunker.

(** ** Numbers *)

(** The operations [cosineSimilarity] and the sort comparator apply to
    JavaScript numbers. *)
Class Num : Type := {
  num : Type;
  nzero : num;
  nadd : num -> num -> num;
  nsub : num -> num -> num;
  nmul : num -> num -> num;
  ndiv : num -> num -> num;
  nsqrt : num -> num;
  neqb : num -> num -> bool;   (* [===] on numbers *)
  nltb : num -> num -> bool    (* [<] *)
}.

(** IEEE 754 binary64: the numbers of JavaScript. *)
#[export] Instance Float64 : Num := {
  num := float;
  nzero := 0%float;
  nadd := PrimFloat.add;
  nsub := PrimFloat.sub;
  nmul := PrimFloat.mul;
  ndiv := PrimFloat.div;
  nsqrt := PrimFloat.sqrt;
  neqb := PrimFloat.eqb;
  nltb := PrimFloat.ltb
}.

(** [x === x]: the double is not NaN. *)
Definition notNaN (x : float) : Prop := (x =? x)%float = true.




(** ** Similarity and ranking *)

Section Similarity.
Context {N : Num}.

Definition Vector := list num.

(** The [for] loop of [cosineSimilarity]: [dotProduct], [normA] and
    [normB] accumulated index by index. *)
Fixpoint accumulate (vecA vecB : Vector) (dotProduct normA normB : num)
  : num * num * num :=
  match vecA, vecB with
  | a :: vecA', b :: vecB' =>
      accumulate vecA' vecB'
        (nadd dotProduct (nmul a b))
        (nadd normA (nmul a a))
        (nadd normB (nmul b b))
  | _, _ => (dotProduct, normA, normB)
  end.

(** What the loop leaves in [normA] when it started from [acc]. *)
Definition sumSquaresFrom (acc : num) (v : Vector) : num :=
  fold_left (fun acc x => nadd acc (nmul x x)) v acc.

Definition sumSquares (v : Vector) : num := sumSquaresFrom nzero v.

(** [Math.sqrt(normA)]: the norm as the code computes it. *)
Definition norm (v : Vector) : num := nsqrt (sumSquares v).

Definition lengthMismatch : JsError :=
  "Vectors must have the same length"%string.

Definition cosineSimilarity (vecA vecB : Vector) : Outcome num :=
  if negb (length vecA =? length vecB)%nat then Throw lengthMismatch
  else
    let '(dotProduct, normA, normB) :=
      accumulate vecA vecB nzero nzero nzero in
    let normA := nsqrt normA in
    let normB := nsqrt normB in
    if neqb normA nzero || neqb normB nzero then Return nzero
    else Return (ndiv dotProduct (nmul normA normB)).

(** An entry of [this.chunkEmbeddings]. *)
Record ChunkData : Type := {
  chunk : jsstring;
  embedding : Vector;
  index : nat
}.

(** [{ ...chunkData, similarity }]. *)
Record Scored : Type := {
  data : ChunkData;
  similarity : num
}.

(** [this.chunkEmbeddings.map(chunkData => ...)]: entries are scored in
    order and the first exception ends the map. *)
Fixpoint scoreAll (queryEmbedding : Vector) (entries : list ChunkData)
  : Outcome (list Scored) :=
  match entries with
  | [] => Return []
  | chunkData :: rest =>
      match cosineSimilarity queryEmbedding (embedding chunkData) with
      | Return s =>
          match scoreAll queryEmbedding rest with
          | Return scored =>
              Return ({| data := chunkData; similarity := s |} :: scored)
          | Throw e => Throw e
          | Diverge => Diverge
          end
      | Throw e => Throw e
      | Diverge => Diverge
      end
  end.

(** The comparator [(a, b) => b.similarity - a.similarity]. *)
Definition compareFn (a b : Scored) : num :=
  nsub (similarity b) (similarity a).

(** [Array.prototype.sort] with a comparator.  ECMAScript requires the
    sort to be stable; an element moves behind another only when the
    comparator puts it there with a positive result, and a result that is
    zero or NaN keeps the two in their order.  For a consistent comparator
    every stable sort returns the list this insertion sort returns. *)
Fixpoint insertBy {A : Type} (cmp : A -> A -> num) (x : A) (l : list A)
  : list A :=
  match l with
  | [] => [x]
  | y :: l' =>
      if nltb nzero (cmp x y) then y :: insertBy cmp x l' else x :: y :: l'
  end.

Fixpoint arraySort {A : Type} (cmp : A -> A -> num) (l : list A) : list A :=
  match l with
  | [] => []
  | x :: l' => insertBy cmp x (arraySort cmp l')
  end.

(** The selection inside [searchRelevantContext]: score, sort, slice. *)
Definition topResults (queryEmbedding : Vector) (k : Z)
  (entries : list ChunkData) : Outcome (list Scored) :=
  match scoreAll queryEmbedding entries with
  | Return similarities => Return (arraySlice0 (arraySort compareFn similarities) k)
  | Throw e => Throw e
  | Diverge => Diverge
  end.

(** The comparator is consistent on a list of scores, as ECMAScript asks
    of a comparator: the sign of [y - x] tells whether [x < y], and [<] is
    a strict weak order on the scores (no NaN among them). *)
Definition consistentOn (scores : list num) : Prop :=
  (forall x y, In x scores -> In y scores ->
     nltb nzero (nsub y x) = nltb x y)
  /\ (forall x y, In x scores -> In y scores ->
     nltb x y = true -> nltb y x = false)
  /\ (forall x y z, In x scores -> In y scores -> In z scores ->
     nltb x y = false -> nltb y z = false -> nltb x z = false).

(** [a] is ranked before [b]: its similarity is not the lower one, and in
    a tie its chunk is the earlier one. *)
Definition ranksBefore (a b : Scored) : Prop :=
  nltb (similarity a) (similarity b) = false
  /\ (nltb (similarity b) (similarity a) = false ->
      (index (data a) < index (data b))%nat).

End Similarity.

(** ** The service object and its collaborators *)

(** What the module reaches outside itself: the file system, the PDF
    parser, the embedding provider, and two functions of the language
    runtime.  A call may fail, and it may answer differently each time:
    it reads and advances the state of the world. *)
Class Runtime {N : Num} : Type := {
  World : Type;
  Buffer : Type;
  readFile : World -> (JsError + Buffer) * World;
  pdfParse : Buffer -> World -> (JsError + jsstring) * World;
  embedContent : jsstring -> World -> (JsError + Vector) * World;
  toLowerCase : jsstring -> jsstring;
  toFixed : num -> nat -> jsstring
}.

Section Service.
Context {N : Num} {RT : Runtime}.

(** The handle [genAI.getGenerativeModel({ model: "models/embedding-001" })]. *)
Inductive EmbeddingModel : Type := Embedding001.

(** The fields of [RAGService] that the methods read and assign. *)
Record RAGService : Type := {
  embeddings : option EmbeddingModel;
  documentChunks : list jsstring;
  chunkEmbeddings : list ChunkData;
  isInitialized : bool
}.

(** The object the constructor leaves. *)
Definition constructed : RAGService := {|
  embeddings := None;
  documentChunks := [];
  chunkEmbeddings := [];
  isInitialized := false
|}.

Definition setEmbeddings (v : option EmbeddingModel) (s : RAGService) :=
  {| embeddings := v; documentChunks := documentChunks s;
     chunkEmbeddings := chunkEmbeddings s; isInitialized := isInitialized s |}.

Definition setDocumentChunks (v : list jsstring) (s : RAGService) :=
  {| embeddings := embeddings s; documentChunks := v;
     chunkEmbeddings := chunkEmbeddings s; isInitialized := isInitialized s |}.

Definition setChunkEmbeddings (v : list ChunkData) (s : RAGService) :=
  {| embeddings := embeddings s; documentChunks := documentChunks s;
     chunkEmbeddings := v; isInitialized := isInitialized s |}.

Definition setIsInitialized (v : bool) (s : RAGService) :=
  {| embeddings := embeddings s; documentChunks := documentChunks s;
     chunkEmbeddings := chunkEmbeddings s; isInitialized := v |}.

(** An [async] method: from the object and the world to a completion,
    the object and the world after it. *)
Definition M (A : Type) : Type :=
  RAGService -> World -> Outcome A * RAGService * World.

Definition ret {A : Type} (a : A) : M A := fun s w => (Return a, s, w).

Definition throw {A : Type} (e : JsError) : M A := fun s w => (Throw e, s, w).

Definition diverge {A : Type} : M A := fun s w => (Diverge, s, w).

Definition bind {A B : Type} (m : M A) (f : A -> M B) : M B :=
  fun s w =>
    match m s w with
    | (Return a, s', w') => f a s' w'
    | (Throw e, s', w') => (Throw e, s', w')
    | (Diverge, s', w') => (Diverge, s', w')
    end.

(** [try { body } catch (error) { handler }]. *)
Definition tryCatch {A : Type} (body : M A) (handler : JsError -> M A) : M A :=
  fun s w =>
    match body s w with
    | (Throw e, s', w') => handler e s' w'
    | r => r
    end.

Definition gets {A : Type} (field : RAGService -> A) : M A :=
  fun s w => (Return (field s), s, w).

Definition assign (update : RAGService -> RAGService) : M unit :=
  fun s w => (Return tt, update s, w).

(** [await] on a call that leaves the module. *)
Definition await {A : Type} (call : World -> (JsError + A) * World) : M A :=
  fun s w =>
    match call w with
    | (inl e, w') => (Throw e, s, w')
    | (inr a, w') => (Return a, s, w')
    end.

Definition liftOutcome {A : Type} (o : Outcome A) : M A := fun s w => (o, s, w).

End Service.

Declare Scope js_scope.
Delimit Scope js_scope with js.
Notation "x <- m ;; k" := (bind m (fun x => k))
  (at level 61, m at next level, right associativity) : js_scope.
Notation "m ;; k" := (bind m (fun _ => k))
  (at level 61, right associativity) : js_scope.

(** ** The methods of [RAGService] *)

Section Methods.
Context {N : Num} {RT : Runtime}.
Open Scope js_scope.

(** [catch (error) { console.error(...); throw error; }]. *)
Definition rethrow {A : Type} (error : JsError) : M A := throw error.

(** [this.embeddings.embedContent(text)] on a handle that is still
    [null] is a TypeError. *)
Definition nullEmbeddings : JsError :=
  "TypeError: Cannot read properties of null (reading 'embedContent')"%string.

Definition getEmbedding (text : jsstring) : M Vector :=
  tryCatch
    (model <- gets embeddings ;;
     match model with
     | None => throw nullEmbeddings
     | Some _ => await (embedContent text)
     end)
    rethrow.

Definition pushChunkEmbedding (entry : ChunkData) (s : RAGService) :=
  setChunkEmbeddings (chunkEmbeddings s ++ [entry]) s.

(** The [for] loop of [generateChunkEmbeddings] from index [i] on, [rest]
    being the chunks not yet embedded. *)
Fixpoint embedFrom (i : nat) (rest : list jsstring) : M unit :=
  match rest with
  | [] => ret tt
  | chunk :: rest' =>
      embedding <- getEmbedding chunk ;;
      assign (pushChunkEmbedding
                {| chunk := chunk; embedding := embedding; index := i |}) ;;
      embedFrom (S i) rest'
  end.

Definition generateChunkEmbeddings : M unit :=
  tryCatch
    (assign (setChunkEmbeddings []) ;;
     chunks <- gets documentChunks ;;
     embedFrom 0 chunks)
    rethrow.

(** [this.splitIntoChunks(fullText, 1000, 200)].  The loop advances
    [start] in every pass for these parameters, so one pass per code unit
    and one more reach the exit ([splitIntoChunks_service_returns]). *)
Definition splitDocument (fullText : jsstring) : M (list jsstring) :=
  match Chunker.splitIntoChunks (S (length fullText)) fullText 1000 200 with
  | Some chunks => ret chunks
  | None => diverge
  end.

Definition loadAndProcessPDF : M unit :=
  tryCatch
    (pdfBuffer <- await readFile ;;
     fullText <- await (pdfParse pdfBuffer) ;;
     chunks <- splitDocument fullText ;;
     assign (setDocumentChunks chunks) ;;
     generateChunkEmbeddings)
    rethrow.

Definition initialize : M unit :=
  tryCatch
    (assign (setEmbeddings (Some Embedding001)) ;;
     loadAndProcessPDF ;;
     assign (setIsInitialized true))
    rethrow.

(** [array.map((x, index) => f index x)]. *)
Fixpoint mapIndexed {A B : Type} (f : nat -> A -> B) (i : nat) (l : list A)
  : list B :=
  match l with
  | [] => []
  | x :: l' => f i x :: mapIndexed f (S i) l'
  end.

Definition formatSection (i : nat) (result : Scored) : jsstring :=
  lit "Relevant Section " ++ ofNat (i + 1) ++ lit " (Similarity: "
  ++ toFixed (similarity result) 3 ++ lit "):" ++ [newline]
  ++ chunk (data result) ++ [newline].

(** [if (!this.isInitialized) { await this.initialize(); }]. *)
Definition ensureInitialized : M unit :=
  initialized <- gets isInitialized ;;
  if initialized then ret tt else initialize.

(** The [try] block of [searchRelevantContext]. *)
Definition searchSteps (query : jsstring) (k : Z) : M jsstring :=
  ensureInitialized ;;
  queryEmbedding <- getEmbedding query ;;
  entries <- gets chunkEmbeddings ;;
  results <- liftOutcome (topResults queryEmbedding k entries) ;;
  ret (join [newline] (mapIndexed formatSection 0 results)).

(** [catch (error) { console.error(...); return ''; }]. *)
Definition searchRelevantContext (query : jsstring) (k : Z) : M jsstring :=
  tryCatch (searchSteps query k) (fun _ => ret []).

Definition extractSearchTerms (message : jsstring) : jsstring :=
  let keywords :=
    firstn 5 (filter (fun word => (3 <? len word)%Z)
                (splitWhiteSpace (toLowerCase message))) in
  join (lit " ") keywords.

Definition getRelevantSections (userMessage : jsstring) (maxChunks : Z)
  : M jsstring :=
  tryCatch
    (ensureInitialized ;;
     let searchQuery := extractSearchTerms userMessage in
     relevantContext <- searchRelevantContext searchQuery maxChunks ;;
     ret relevantContext)
    (fun _ => ret []).

Definition refreshVectorStore : M unit :=
  tryCatch
    (assign (setIsInitialized false) ;;
     assign (setDocumentChunks []) ;;
     assign (setChunkEmbeddings []) ;;
     loadAndProcessPDF ;;
     assign (setIsInitialized true))
    rethrow.

(** *** Sequences of calls *)





(** *** States of the index *)

(** Entry [i] of [entries] was made from chunk [i] of [chunks] and
    carries [index = i]: the entries are those of the first
    [length entries] chunks. *)
Definition entriesFor (chunks : list jsstring) (entries : list ChunkData)
  : Prop :=
  map chunk entries = firstn (length entries) chunks
  /\ map index entries = seq 0 (length entries)
  /\ (length entries <= length chunks)%nat.

(** Every chunk has its embedding. *)
Definition fullyBuilt (s : RAGService) : Prop :=
  entriesFor (documentChunks s) (chunkEmbeddings s)
  /\ length (chunkEmbeddings s) = length (documentChunks s).



(** The stored embeddings belong to the first chunks, in order. *)
Definition indexed (s : RAGService) : Prop :=
  entriesFor (documentChunks s) (chunkEmbeddings s).

(** A previous generation exists: a complete build, not empty, that the
    service is serving. *)
Definition hasGeneration (s : RAGService) : Prop :=
  documentChunks s <> [] /\ chunkEmbeddings s <> []
  /\ length (chunkEmbeddings s) = length (documentChunks s)
  /\ isInitialized s = true.

(** *** What a build leaves *)

(** How far a build got: [Return] with every chunk embedded, [Throw]
    with some chunk left. *)
Definition progress (o : Outcome unit) (embedded chunks : nat) : Prop :=
  match o with
  | Return _ => embedded = chunks
  | Throw _ => (embedded < chunks)%nat
  | Diverge => False
  end.

(** What [loadAndProcessPDF] does to the object: nothing when the file
    cannot be read or parsed, otherwise the new chunks and the embeddings
    of the chunks before the first refusal of the provider. *)
Definition rebuilt (o : Outcome unit) (s s' : RAGService) : Prop :=
  (exists e, o = Throw e /\ s' = s)
  \/ (exists chunks entries,
        s' = setChunkEmbeddings entries (setDocumentChunks chunks s)
        /\ entriesFor chunks entries
        /\ progress o (length entries) (length chunks)).

(** [refreshVectorStore]: the three fields are cleared first. *)
Definition cleared (s : RAGService) : RAGService :=
  setChunkEmbeddings [] (setDocumentChunks [] (setIsInitialized false s)).

(** The claims of the design document, as it words them. *)

(** A failed refresh leaves the previous generation in place. *)
Definition refreshKeepsGeneration : Prop :=
  forall s w e s' w',
    hasGeneration s ->
    refreshVectorStore s w = (Throw e, s', w') ->
    documentChunks s' = documentChunks s
    /\ chunkEmbeddings s' = chunkEmbeddings s.

(** A failed embedding of the query reaches the caller of
    [searchRelevantContext] as an exception. *)
Definition searchPropagates : Prop :=
  forall query k s w e w',
    isInitialized s = true ->
    embeddings s = Some Embedding001 ->
    embedContent query w = (inl e, w') ->
    exists e' s' w'', searchRelevantContext query k s w = (Throw e', s', w'').


End Methods.

(** ** A scripted runtime

    Collaborators for running the methods on concrete inputs: the world
    holds the text of the PDF ([None]: the file cannot be read) and the
    number of embeddings the provider still grants before it refuses. *)

Module Script.

Record ScriptWorld : Type := {
  document : option jsstring;
  quota : nat
}.

Definition scriptReadFile (w : ScriptWorld)
  : (JsError + jsstring) * ScriptWorld :=
  match document w with
  | None => (inl "ENOENT: no such file or directory"%string, w)
  | Some bytes => (inr bytes, w)
  end.

Definition scriptPdfParse (buffer : jsstring) (w : ScriptWorld)
  : (JsError + jsstring) * ScriptWorld :=
  (inr buffer, w).

Definition scriptEmbedContent (text : jsstring) (w : ScriptWorld)
  : (JsError + list float) * ScriptWorld :=
  match quota w with
  | O => (inl "429 Too Many Requests"%string, w)
  | S q => (inr [1%float; 0%float], {| document := document w; quota := q |})
  end.

(** The scripts exercise states and failures; how a similarity is
    printed and how a message is lower-cased do not matter to them. *)
#[export] Instance scripted : @Runtime Float64 := {
  World := ScriptWorld;
  Buffer := jsstring;
  readFile := scriptReadFile;
  pdfParse := scriptPdfParse;
  embedContent := scriptEmbedContent;
  toLowerCase := fun s => s;
  toFixed := fun _ _ => lit "0.000"
}.

(** Documents of one chunk and of two chunks. *)
Definition shortText : jsstring := repeat 97%N 60.
Definition longText : jsstring := repeat 97%N 1500.

(** The service after a first successful [initialize] on [shortText]. *)
Definition serving : RAGService := {|
  embeddings := Some Embedding001;
  documentChunks := [shortText];
  chunkEmbeddings :=
    [{| chunk := shortText; embedding := [1%float; 0%float]; index := 0 |}];
  isInitialized := true
|}.

(** The file has gone. *)
Definition offline : ScriptWorld := {| document := None; quota := 5 |}.

(** The provider refuses the next request. *)
Definition refusing : ScriptWorld :=
  {| document := Some shortText; quota := 0 |}.

(** The document has two chunks and the provider grants one embedding. *)
Definition rationed : ScriptWorld :=
  {| document := Some longText; quota := 1 |}.

(** What [refreshVectorStore] leaves of [serving] in the world [offline]. *)
Definition afterFailedRefresh : RAGService := {|
  embeddings := Some Embedding001;
  documentChunks := [];
  chunkEmbeddings := [];
  isInitialized := false
|}.


(** A provider that refuses every request. *)
Definition unreachable : @Runtime Float64 := {|
  World := ScriptWorld;
  Buffer := jsstring;
  readFile := scriptReadFile;
  pdfParse := scriptPdfParse;
  embedContent := fun _ w => (inl "401 Unauthorized"%string, w);
  toLowerCase := fun s => s;
  toFixed := fun _ _ => lit "0.000"
|}.

(** Three stored chunks, the first and the last with the embedding of
    the query. *)
Definition stored : list ChunkData := [
  {| chunk := lit "first"; embedding := [1; 0]%float; index := 0 |};
  {| chunk := lit "second"; embedding := [0; 1]%float; index := 1 |};
  {| chunk := lit "third"; embedding := [1; 0]%float; index := 2 |}
].

(** A text of 2500 units whose only period is unit 1600. *)
Definition periodAt1600 : jsstring :=
  repeat 97%N 1600 ++ [period] ++ repeat 97%N 899.

End Script.
(** ** What the chunker returns *)

(** A chunk of the result: a trimmed slice of the text, longer than 50
    units and no longer than a window. *)
Definition wellCut (text : jsstring) (chunkSize : Z) (chunk : jsstring)
  : Prop :=
  (50 < len chunk <= chunkSize)%Z
  /\ (len chunk <= len text)%Z
  /\ trimStart chunk = chunk /\ trimEnd chunk = chunk
  /\ exists a b, chunk = trim (slice text a b).

(** ** The words of a message *)

(** A word without white space, as the pieces of [split(/\s+/)] are. *)
Definition solid (word : jsstring) : Prop :=
  Forall (fun c => isWhiteSpace c = false) word.

(** The units a list of pieces takes in a string: each piece and one
    unit of white space after it. *)
Fixpoint weight (parts : list jsstring) : Z :=
  match parts with
  | [] => 0%Z
  | p :: rest => (len p + 1 + weight rest)%Z
  end.

(** ** Stored chunks over exact numbers *)




(** A provider that answers every request with the same embedding. *)
Definition generous : @Runtime Float64 := {|
  World := Script.ScriptWorld;
  Buffer := jsstring;
  readFile := Script.scriptReadFile;
  pdfParse := Script.scriptPdfParse;
  embedContent := fun _ w => (inr [1%float; 0%float], w);
  toLowerCase := fun s => s;
  toFixed := fun _ _ => lit "1.000"
|}.

(** ** The routes that call the service *)

Section Routes.
Context {N : Num} {RT : Runtime}.
Open Scope js_scope.

(** The JSON bodies the two routes send; [details] is [undefined], and
    left out of the JSON, unless [NODE_ENV] is [development]. *)
Inductive Body : Type :=
| ErrorBody (error : jsstring) (details : option JsError)
| TestBody (query relevantContent message : jsstring)
| MessageBody (message : jsstring).

(** [res.status(code).json(body)]; [res.json(body)] answers 200. *)
Record Response : Type := {
  status : nat;
  body : Body
}.

(** [process.env.NODE_ENV === 'development' ? error.message : undefined]. *)
Definition detailsOf (development : bool) (error : JsError)
  : option JsError :=
  if development then Some error else None.

(** The handler of [GET /test-rag].  [query] is [req.query.query], absent
    or a string; [!query] holds of the absent and of the empty one. *)
Definition testRag (development : bool) (query : option jsstring)
  : M Response :=
  tryCatch
    (match query with
     | Some (first :: rest) =>
         let query := first :: rest in
         relevantContent <- getRelevantSections query 2 ;;
         ret {| status := 200;
                body := TestBody query relevantContent
                          (lit "RAG system test completed successfully") |}
     | _ =>
         ret {| status := 400;
                body := ErrorBody (lit "Query parameter is required") None |}
     end)
    (fun error =>
       ret {| status := 500;
              body := ErrorBody (lit "Failed to test RAG system")
                        (detailsOf development error) |}).

(** The handler of [POST /refresh-rag], behind the [auth] middleware. *)
Definition refreshRag (development : bool) : M Response :=
  tryCatch
    (refreshVectorStore ;;
     ret {| status := 200;
            body := MessageBody (lit "RAG system refreshed successfully") |})
    (fun error =>
       ret {| status := 500;
              body := ErrorBody (lit "Failed to refresh RAG system")
                        (detailsOf development error) |}).

End Routes.

(** ** The face verification service *)

Module Face.

(** What [faceapi] returns for one face: the box of the detection and the
    descriptor, a [Float32Array] when it is there. *)
Record Box : Type := {
  width : float;
  height : float
}.

Record FaceDetection : Type := {
  box : Box
}.

Record WithFaceDescriptor : Type := {
  detection : FaceDetection;
  descriptor : option (list float)
}.

(** An argument that should be a [Buffer]: a falsy value ([undefined],
    [null]), a value that is no [Buffer], or a [Buffer]. *)
Inductive BufferArg (Buffer : Type) : Type :=
| Falsy
| NotABuffer
| IsBuffer (buffer : Buffer).
Arguments Falsy {Buffer}.
Arguments NotABuffer {Buffer}.
Arguments IsBuffer {Buffer} buffer.

(** A user id: [undefined], [null], or a string; an [ObjectId] stands
    for its rendering in a template literal, which is never empty. *)
Inductive UserId : Type :=
| IdUndefined
| IdNull
| IdString (s : jsstring).

(** [`${userId}`]. *)
Definition toString (userId : UserId) : jsstring :=
  match userId with
  | IdUndefined => lit "undefined"
  | IdNull => lit "null"
  | IdString s => s
  end.

(** [!userId]. *)
Definition missingId (userId : UserId) : bool :=
  match userId with
  | IdString (_ :: _) => false
  | _ => true
  end.

(** [!buffer]. *)
Definition missingBuffer {Buffer : Type} (b : BufferArg Buffer) : bool :=
  match b with
  | Falsy => true
  | _ => false
  end.

(** The three networks [initializeFaceAPI] loads. *)
Inductive Net : Type :=
| TinyFaceDetector
| FaceLandmark68Net
| FaceRecognitionNet.

(** What the module reaches outside itself: [fs.promises], [path],
    [canvas] and [faceapi]. *)
Class Runtime : Type := {
  World : Type;
  Buffer : Type;
  Image : Type;
  access : jsstring -> World -> (JsError + unit) * World;
  mkdir : jsstring -> World -> (JsError + unit) * World;
  readFile : jsstring -> World -> (JsError + Buffer) * World;
  writeFile : jsstring -> BufferArg Buffer -> World -> (JsError + unit) * World;
  pathJoin : jsstring -> jsstring -> jsstring;
  loadFromDisk : Net -> jsstring -> World -> (JsError + unit) * World;
  loadImage : Buffer -> World -> (JsError + Image) * World;
  detectAllFaces : Image -> World
                   -> (JsError + list WithFaceDescriptor) * World;
  euclideanDistance : list float -> list float -> JsError + float
}.

(** The fields the constructor computes with [path.join]. *)
Record FaceVerificationService : Type := {
  uploadDir : jsstring;
  modelsDir : jsstring
}.

Section Methods.
Context {RT : Runtime}.
Variable this : FaceVerificationService.

(** An [async] method of the service: the fields are never assigned, a
    call reads and advances the world. *)
Definition F (A : Type) : Type := World -> Outcome A * World.

Definition ret {A : Type} (a : A) : F A := fun w => (Return a, w).

Definition throw {A : Type} (e : JsError) : F A := fun w => (Throw e, w).

Definition bind {A B : Type} (m : F A) (f : A -> F B) : F B :=
  fun w =>
    match m w with
    | (Return a, w') => f a w'
    | (Throw e, w') => (Throw e, w')
    | (Diverge, w') => (Diverge, w')
    end.

Definition tryCatch {A : Type} (body : F A) (handler : JsError -> F A) : F A :=
  fun w =>
    match body w with
    | (Throw e, w') => handler e w'
    | r => r
    end.

Definition await {A : Type} (call : World -> (JsError + A) * World) : F A :=
  fun w =>
    match call w with
    | (inl e, w') => (Throw e, w')
    | (inr a, w') => (Return a, w')
    end.

(** A call of the library that returns or throws at once. *)
Definition call {A : Type} (r : JsError + A) : F A :=
  fun w =>
    match r with
    | inl e => (Throw e, w)
    | inr a => (Return a, w)
    end.

Notation "x <- m ;; k" := (bind m (fun x => k))
  (at level 61, m at next level, right associativity).
Notation "m ;; k" := (bind m (fun _ => k))
  (at level 61, right associativity).

(** [throw new Error(prefix + error.message)]. *)
Definition wrapped {A : Type} (prefix : String.string) (error : JsError)
  : F A :=
  throw (String.append prefix error).

Definition ensureUploadDir : F unit :=
  tryCatch (await (access (uploadDir this)))
           (fun _ => await (mkdir (uploadDir this))).

Definition initializeFaceAPI : F unit :=
  tryCatch
    (await (loadFromDisk TinyFaceDetector (modelsDir this)) ;;
     await (loadFromDisk FaceLandmark68Net (modelsDir this)) ;;
     await (loadFromDisk FaceRecognitionNet (modelsDir this)))
    (fun _ => throw "Failed to initialize face recognition"%string).

Definition saveFaceImage (userId : UserId) (imageBuffer : BufferArg Buffer)
  : F jsstring :=
  let filename := toString userId ++ lit "-face.jpg" in
  let filepath := pathJoin (uploadDir this) filename in
  await (writeFile filepath imageBuffer) ;;
  ret filepath.

(** [box.width * box.height]. *)
Definition area (face : WithFaceDescriptor) : float :=
  (width (box (detection face)) * height (box (detection face)))%float.

(** The callback of [reduce]: [currentArea > prevArea ? current : prev]. *)
Definition largerFace (prev current : WithFaceDescriptor)
  : WithFaceDescriptor :=
  if (area prev <? area current)%float then current else prev.

(** [detections.reduce(callback)] with no initial value, on an array
    whose first element is [first]. *)
Definition largestFace (first : WithFaceDescriptor)
  (rest : list WithFaceDescriptor) : WithFaceDescriptor :=
  fold_left largerFace rest first.

(** What [reduce] holds after some faces: the faces before it are
    strictly smaller, the faces after it are not larger. *)
Definition firstLargest (before : list WithFaceDescriptor)
  (best : WithFaceDescriptor) (after : list WithFaceDescriptor) : Prop :=
  Forall (fun f => (area f <? area best)%float = true) before
  /\ Forall (fun f => (area best <? area f)%float = false) after.

Definition getFaceDescriptor (imageBuffer : BufferArg Buffer)
  : F (list float) :=
  tryCatch
    (match imageBuffer with
     | IsBuffer buffer =>
         img <- await (loadImage buffer) ;;
         detections <- await (detectAllFaces img) ;;
         match detections with
         | [] => throw "No face detected in the image"%string
         | first :: rest =>
             match descriptor (largestFace first rest) with
             | None => throw "Failed to extract face features"%string
             | Some values => ret values
             end
         end
     | _ => throw "Invalid image buffer"%string
     end)
    (wrapped "Failed to process face image: "%string).

(** [MATCH_THRESHOLD = 0.6], the double nearest to six tenths. *)
Definition MATCH_THRESHOLD : float := 0x1.3333333333333p-1%float.

(** A descriptor argument is [None] when it is falsy, otherwise the
    array [Array.from] makes of it. *)
Definition compareFaces (descriptor1 descriptor2 : option (list float))
  : F bool :=
  tryCatch
    (match descriptor1, descriptor2 with
     | Some d1, Some d2 =>
         if negb (length d1 =? length d2)%nat
         then throw "Face descriptors have different lengths"%string
         else
           distance <- call (euclideanDistance d1 d2) ;;
           ret (distance <=? MATCH_THRESHOLD)%float
     | _, _ => throw "Missing face descriptors"%string
     end)
    (wrapped "Failed to compare faces: "%string).

Definition verifyFace (userId : UserId) (newFaceBuffer : BufferArg Buffer)
  : F bool :=
  tryCatch
    (if missingId userId || missingBuffer newFaceBuffer
     then throw "Missing required parameters"%string
     else
       let storedFacePath :=
         pathJoin (uploadDir this) (toString userId ++ lit "-face.jpg") in
       tryCatch (await (access storedFacePath))
                (fun _ => throw "No face image found for this user"%string) ;;
       storedFaceBuffer <- await (readFile storedFacePath) ;;
       storedDescriptor <- getFaceDescriptor (IsBuffer storedFaceBuffer) ;;
       newDescriptor <- getFaceDescriptor newFaceBuffer ;;
       isMatch <- compareFaces (Some storedDescriptor) (Some newDescriptor) ;;
       ret isMatch)
    (wrapped "Failed to verify face: "%string).

End Methods.

End Face.

(** ** A scripted runtime for the face service

    Files are kept in memory, newest first; an image is the list of the
    faces a detector finds in it; the distance is the one [faceapi]
    computes, the square root of the sum of the squared differences. *)

Module FaceScript.
Import Face.

Definition Picture : Type := list WithFaceDescriptor.

Definition Files : Type := list (jsstring * Picture).

Fixpoint sameString (a b : jsstring) : bool :=
  match a, b with
  | [], [] => true
  | x :: a', y :: b' => N.eqb x y && sameString a' b'
  | _, _ => false
  end.

Fixpoint lookup (path : jsstring) (files : Files) : option Picture :=
  match files with
  | [] => None
  | (p, picture) :: rest =>
      if sameString p path then Some picture else lookup path rest
  end.

Definition scriptAccess (path : jsstring) (files : Files)
  : (JsError + unit) * Files :=
  match lookup path files with
  | Some _ => (inr tt, files)
  | None => (inl "ENOENT: no such file or directory"%string, files)
  end.

Definition scriptReadFile (path : jsstring) (files : Files)
  : (JsError + Picture) * Files :=
  match lookup path files with
  | Some picture => (inr picture, files)
  | None => (inl "ENOENT: no such file or directory"%string, files)
  end.

Definition scriptWriteFile (path : jsstring) (data : BufferArg Picture)
  (files : Files) : (JsError + unit) * Files :=
  match data with
  | IsBuffer picture => (inr tt, (path, picture) :: files)
  | _ => (inl "ERR_INVALID_ARG_TYPE"%string, files)
  end.

Definition scriptDistance (a b : list float) : JsError + float :=
  inr (PrimFloat.sqrt
         (fold_left (fun res ab => (res + (fst ab - snd ab) * (fst ab - snd ab))%float)
            (combine a b) 0%float)).

#[export] Instance scriptedFaces : Face.Runtime := {
  World := Files;
  Buffer := Picture;
  Image := Picture;
  access := scriptAccess;
  mkdir := fun _ files => (inr tt, files);
  readFile := scriptReadFile;
  writeFile := scriptWriteFile;
  pathJoin := fun dir name => dir ++ lit "/" ++ name;
  loadFromDisk := fun _ _ files => (inr tt, files);
  loadImage := fun picture files => (inr picture, files);
  detectAllFaces := fun picture files => (inr picture, files);
  euclideanDistance := scriptDistance
}.

Definition service : FaceVerificationService := {|
  uploadDir := lit "uploads/faces";
  modelsDir := lit "models"
|}.

Definition face (w h : float) (values : list float) : WithFaceDescriptor := {|
  detection := {| box := {| width := w; height := h |} |};
  descriptor := Some values
|}.

(** A portrait with a small face in the background before the large one,
    and a second picture of the large face. *)
Definition portrait : Picture :=
  [face 10 10 [0; 1]%float; face 40 50 [1; 0]%float;
   face 50 40 [0; 0]%float].

Definition selfie : Picture := [face 80 80 [1; 0.5]%float].

Definition alice : UserId := IdString (lit "alice").

(** The stored portrait of [alice] and what [saveFaceImage] leaves. *)
Definition saved : Files := [(lit "uploads/faces/alice-face.jpg", portrait)].

End FaceScript.


(* ================================================================== *)
(** * Part II: properties *)
(* ================================================================== *)

Unset Implicit Arguments.

(** ** Strings *)

Module JSFacts.
Local Open Scope Z_scope.

Lemma len_nonneg (s : jsstring) : (0 <= len s)%Z.
Proof. unfold len. lia. Qed.

Lemma lastIndexFrom_upper (c : N) (s : jsstring) :
  forall i acc, (acc < i)%Z -> (lastIndexFrom c s i acc < i + len s)%Z.
Proof.
  induction s as [|x s IH]; intros i acc Hacc; simpl.
  - unfold len; simpl. lia.
  - specialize (IH (i + 1)%Z (if N.eqb x c then i else acc)).
    replace (len (x :: s)) with (1 + len s)%Z
      by (unfold len; simpl length; lia).
    destruct (N.eqb x c); lia.
Qed.

(** [lastIndexOf] answers a position of the string, or [-1]. *)
Lemma lastIndexOf_upper (s : jsstring) (c : N) : (lastIndexOf s c < len s)%Z.
Proof.
  unfold lastIndexOf.
  pose proof (lastIndexFrom_upper c s 0 (-1) ltac:(lia)). lia.
Qed.

(** A slice is no longer than the distance between its two indices. *)
Lemma slice_length_le (s : jsstring) (a b : Z) :
  (a <= b)%Z -> (len (slice s a b) <= b - a)%Z.
Proof.
  intros Hab. unfold slice, len.
  rewrite length_firstn, length_skipn.
  pose proof (len_nonneg s) as Hs. unfold len in Hs.
  unfold clampIndex.
  destruct (a <? 0)%Z eqn:Ea; destruct (b <? 0)%Z eqn:Eb;
    rewrite ?Z.ltb_lt, ?Z.ltb_ge in Ea, Eb; lia.
Qed.

Lemma slice_whole (s : jsstring) : slice s 0 (len s) = s.
Proof.
  unfold slice, clampIndex.
  pose proof (len_nonneg s) as Hs.
  destruct (len s <? 0)%Z eqn:E; [rewrite Z.ltb_lt in E; lia|].
  simpl (0 <? 0)%Z. cbv iota.
  rewrite Z.min_id, Z.min_l by lia.
  rewrite Z.sub_0_r. simpl skipn.
  unfold len. rewrite Nat2Z.id. apply firstn_all.
Qed.

End JSFacts.
Import JSFacts.

(** ** The chunker *)

Module ChunkerFacts.
Import Chunker.
Local Open Scope Z_scope.

(** With the parameters of the service every pass moves [start] forward. *)
Lemma splitStep_service_advances (text : jsstring) (start : Z) :
  (0 <= start < len text)%Z ->
  (start < snd (splitStep text 1000 200 start))%Z.
Proof.
  intros Hs. unfold splitStep, beyondThreshold.
  destruct (Z.min (start + 1000) (len text) <? len text)%Z eqn:E.
  - rewrite Z.ltb_lt in E.
    match goal with |- context [if ?b then _ else _] => destruct b eqn:T end;
      simpl snd.
    + rewrite Z.ltb_lt in T. lia.
    + lia.
  - rewrite Z.ltb_ge in E. simpl snd. lia.
Qed.

Lemma splitLoop_service_returns (fuel : nat) :
  forall (text : jsstring) (start : Z) (chunks : list jsstring),
    (0 <= start)%Z -> (len text - start <= Z.of_nat fuel)%Z ->
    exists result,
      splitLoop (S fuel) text 1000 200 start chunks = Some result.
Proof.
  induction fuel as [|fuel IH]; intros text start chunks H0 Hfuel;
    cbn [splitLoop]; destruct (start <? len text)%Z eqn:E; eauto;
    rewrite Z.ltb_lt in E; [lia|].
  pose proof (splitStep_service_advances text start (conj H0 E)) as Hadv.
  destruct (splitStep text 1000 200 start) as [chunk start'].
  simpl in Hadv. apply IH; lia.
Qed.

(** [splitIntoChunks(fullText, 1000, 200)] returns: one pass per code
    unit and one more leave the loop. *)
Lemma splitIntoChunks_service_returns (text : jsstring) :
  exists chunks,
    splitIntoChunks (S (length text)) text 1000 200 = Some chunks.
Proof.
  apply splitLoop_service_returns; [lia|]. unfold len. lia.
Qed.

(** When [overlap >= chunkSize] and more than [chunkSize] units remain
    after [start <= 0], a pass takes the first branch and does not move
    [start] forward. *)
Lemma splitStep_stuck (text : jsstring) (chunkSize overlap start : Z) :
  (0 <= chunkSize <= overlap)%Z -> (chunkSize < len text)%Z ->
  (start <= 0)%Z ->
  (snd (splitStep text chunkSize overlap start) <= 0)%Z.
Proof.
  intros Hc Hlen Hs. unfold splitStep.
  assert (Hend : Z.min (start + chunkSize) (len text) = (start + chunkSize)%Z)
    by lia.
  rewrite Hend.
  destruct (start + chunkSize <? len text)%Z eqn:E;
    [|rewrite Z.ltb_ge in E; lia].
  set (chunk := slice text start (start + chunkSize)).
  pose proof (slice_length_le text start (start + chunkSize) ltac:(lia)) as Hl.
  fold chunk in Hl.
  pose proof (lastIndexOf_upper chunk period).
  pose proof (lastIndexOf_upper chunk newline).
  destruct (beyondThreshold _ _ _); simpl snd; lia.
Qed.

Lemma splitLoop_stuck (fuel : nat) :
  forall (text : jsstring) (chunkSize overlap start : Z)
         (chunks : list jsstring),
    (0 <= chunkSize <= overlap)%Z -> (chunkSize < len text)%Z ->
    (start <= 0)%Z ->
    splitLoop fuel text chunkSize overlap start chunks = None.
Proof.
  induction fuel as [|fuel IH]; intros text chunkSize overlap start chunks
    Hc Hlen Hs; [reflexivity|].
  simpl. destruct (start <? len text)%Z eqn:E;
    [|rewrite Z.ltb_ge in E; lia].
  pose proof (splitStep_stuck text chunkSize overlap start Hc Hlen Hs) as Hstuck.
  destruct (splitStep text chunkSize overlap start) as [chunk start'].
  simpl in Hstuck. now apply IH.
Qed.

(** A text that fits one chunk is cut in a single pass. *)
Lemma splitIntoChunks_single_pass (fuel : nat) (text : jsstring)
  (chunkSize overlap : Z) :
  (2 <= fuel)%nat -> (len text <= chunkSize)%Z ->
  splitIntoChunks fuel text chunkSize overlap = Some (pushChunk [] text).
Proof.
  intros Hfuel Hlen. pose proof (len_nonneg text) as Hn.
  destruct fuel as [|[|fuel]]; try lia.
  unfold splitIntoChunks. cbn [splitLoop].
  destruct (0 <? len text)%Z eqn:E.
  - rewrite Z.ltb_lt in E. unfold splitStep.
    replace (Z.min (0 + chunkSize) (len text)) with (len text) by lia.
    rewrite Z.ltb_irrefl, slice_whole, Z.ltb_irrefl. reflexivity.
  - rewrite Z.ltb_ge in E. assert (Hz : len text = 0%Z) by lia.
    destruct text; [reflexivity|]. unfold len in Hz. simpl in Hz. lia.
Qed.

End ChunkerFacts.

Module ChunkerClaims.
Import Chunker ChunkerFacts Script.
Local Open Scope Z_scope.

(** On the first pass ([start = 0]) the loop body follows the rule of the
    design document: position in the chunk and position in the text are
    the same number. *)
Lemma splitStep_first_pass_agrees (text : jsstring) (chunkSize overlap : Z) :
  0 <= chunkSize ->
  splitStep text chunkSize overlap 0 = splitStep_spec text chunkSize overlap 0.
Proof.
  intros Hc. unfold splitStep, splitStep_spec, rightmostBreak.
  destruct (Z.min (0 + chunkSize) (len text) <? len text); [|reflexivity].
  set (rel := Z.max _ _).
  destruct (rel <? 0) eqn:E.
  - rewrite Z.ltb_lt in E. unfold beyondThreshold.
    destruct (10 * 0 + 7 * chunkSize <? 10 * rel) eqn:T; [|reflexivity].
    rewrite Z.ltb_lt in T. lia.
  - rewrite !Z.add_0_l. reflexivity.
Qed.

(** After the first pass ([0 < start]) a break in the last 30 percent of
    the window, but not beyond [start + 0.7 * chunkSize] when read as a
    position in the chunk, is cut by the rule and missed by the loop. *)
Lemma splitStep_misses_late_break
  (text : jsstring) (chunkSize overlap start : Z) :
  0 < start -> start + chunkSize < len text ->
  let chunk := slice text start (start + chunkSize) in
  let rel := Z.max (lastIndexOf chunk period) (lastIndexOf chunk newline) in
  0 <= rel -> 7 * chunkSize < 10 * rel <= 10 * start + 7 * chunkSize ->
  splitStep_spec text chunkSize overlap start
  = (slice text start (start + rel + 1), start + rel + 1 - overlap)
  /\ splitStep text chunkSize overlap start
     = (chunk, start + chunkSize - overlap).
Proof.
  intros Hs Hlen chunk rel Hrel Hwin.
  unfold splitStep, splitStep_spec, rightmostBreak.
  replace (Z.min (start + chunkSize) (len text)) with (start + chunkSize)
    by lia.
  assert (E : (start + chunkSize <? len text) = true) by (apply Z.ltb_lt; lia).
  rewrite E. fold chunk. fold rel.
  assert (E0 : (rel <? 0) = false) by (apply Z.ltb_ge; lia).
  rewrite E0. unfold beyondThreshold.
  assert (E1 : (10 * start + 7 * chunkSize <? 10 * (start + rel)) = true)
    by (apply Z.ltb_lt; lia).
  assert (E2 : (10 * start + 7 * chunkSize <? 10 * rel) = false)
    by (apply Z.ltb_ge; lia).
  rewrite E1, E2. split; reflexivity.
Qed.

(** C4, at the failing input.  In [periodAt1600] the first pass cuts the
    raw window [[0, 1000)] and moves [start] to 800.  The window of the
    second pass is [[800, 1800)]; its rightmost break is the period at
    1600, beyond 800 + 0.7 * 1000 = 1500, so the rule cuts [[800, 1601)]
    and moves [start] to 1401.  The loop body compares the position in the
    chunk, 800, with 1500, cuts the raw window [[800, 1800)] and moves
    [start] to 1600; the chunk lists differ. *)
Theorem splitStep_misses_break_after_first_pass :
  splitStep periodAt1600 1000 200 0 = (slice periodAt1600 0 1000, 800)
  /\ rightmostBreak periodAt1600 800 1800 = Some 1600
  /\ beyondThreshold 1600 800 1000 = true
  /\ splitStep_spec periodAt1600 1000 200 800
     = (slice periodAt1600 800 1601, 1401)
  /\ splitStep periodAt1600 1000 200 800
     = (slice periodAt1600 800 1800, 1600)
  /\ option_map (map (@length N)) (splitIntoChunks 2501 periodAt1600 1000 200)
     = Some [1000; 1000; 900]%nat
  /\ option_map (map (@length N)) (splitLoop_spec 2501 periodAt1600 1000 200 0 [])
     = Some [1000; 801; 1000; 299]%nat.
Proof. repeat split; vm_compute; reflexivity. Qed.

(** The claim of C7 read on [shortText] with [overlap = chunkSize]: the
    call returns the one chunk and throws nothing. *)
Lemma overlap_eq_chunkSize_returns :
  splitCompletion 2 shortText 1000 1000 = Return [shortText]
  /\ ~ failsFast shortText 1000 1000.
Proof.
  split; [vm_compute; reflexivity|].
  intros (fuel & e & H). unfold splitCompletion in H.
  destruct (splitIntoChunks fuel shortText 1000 1000); discriminate.
Qed.

(** C7, as the code has it.  [splitIntoChunks] has no guard on its
    parameters and throws nothing.  With [0 <= chunkSize <= overlap] a
    text of at most [chunkSize] units is cut in one pass and returned; on
    a longer text [start] never rises above 0 and the loop is never left. *)
Theorem splitIntoChunks_overlap_ge_chunkSize
  (text : jsstring) (chunkSize overlap : Z) :
  0 <= chunkSize <= overlap ->
  (forall fuel e, splitCompletion fuel text chunkSize overlap <> Throw e)
  /\ (len text <= chunkSize ->
      forall fuel, (2 <= fuel)%nat ->
        splitCompletion fuel text chunkSize overlap
        = Return (pushChunk [] text))
  /\ (chunkSize < len text ->
      forall fuel, splitCompletion fuel text chunkSize overlap = Diverge).
Proof.
  intros Hc. unfold splitCompletion. repeat split.
  - intros fuel e.
    destruct (splitIntoChunks fuel text chunkSize overlap); discriminate.
  - intros Hlen fuel Hfuel.
    now rewrite splitIntoChunks_single_pass.
  - intros Hlen fuel. unfold splitIntoChunks.
    now rewrite splitLoop_stuck by lia.
Qed.

Lemma splitIntoChunks_overlap_ge_chunkSize_witness :
  splitCompletion 2 shortText 1000 1000 = Return (pushChunk [] shortText)
  /\ splitCompletion 7 longText 1000 1200 = Diverge.
Proof.
  split.
  - apply (splitIntoChunks_overlap_ge_chunkSize shortText 1000 1000);
      [lia | vm_compute; discriminate | lia].
  - apply (splitIntoChunks_overlap_ge_chunkSize longText 1000 1200);
      [lia | vm_compute; reflexivity].
Defined.

End ChunkerClaims.

(** ** Cosine similarity *)

Section SimilarityFacts.
Context {N : Num}.

Lemma accumulate_norms (vecA : Vector) :
  forall (vecB : Vector) (d na nb : num),
    length vecA = length vecB ->
    exists d',
      accumulate vecA vecB d na nb
      = (d', sumSquaresFrom na vecA, sumSquaresFrom nb vecB).
Proof.
  induction vecA as [|a vecA IH]; intros [|b vecB] d na nb Hlen;
    try discriminate; simpl.
  - now exists d.
  - apply IH. now injection Hlen.
Qed.





(** C6, as the code has it: for two vectors of one length, a norm that
    the code finds equal to 0 on either side gives 0; nothing is divided
    and nothing is thrown.  Vectors of different lengths are refused
    before any norm is looked at. *)
Theorem cosineSimilarity_zero_norm (vecA vecB : Vector) :
  length vecA = length vecB ->
  neqb (norm vecA) nzero = true \/ neqb (norm vecB) nzero = true ->
  cosineSimilarity vecA vecB = Return nzero.
Proof.
  intros Hlen Hzero. unfold cosineSimilarity.
  rewrite Hlen, Nat.eqb_refl. simpl.
  destruct (accumulate_norms vecA vecB nzero nzero nzero Hlen) as [d ->].
  fold (sumSquares vecA). fold (sumSquares vecB).
  fold (norm vecA). fold (norm vecB).
  destruct Hzero as [-> | ->]; [reflexivity|].
  now rewrite orb_true_r.
Qed.

(** C10: vectors of different lengths are refused with the error of the
    first statement of [cosineSimilarity], whatever the arithmetic of the
    numbers is, and the selection of a query meets the check on the first
    stored embedding whose length is not the query's. *)
Theorem cosineSimilarity_length_mismatch (vecA vecB : Vector) :
  length vecA <> length vecB ->
  cosineSimilarity vecA vecB = Throw lengthMismatch
  /\ forall (k : Z) (before after : list ChunkData) (entry : ChunkData),
       embedding entry = vecB ->
       Forall (fun e => length (embedding e) = length vecA) before ->
       topResults vecA k (before ++ entry :: after) = Throw lengthMismatch.
Proof.
  intros Hlen.
  assert (Hthrow : cosineSimilarity vecA vecB = Throw lengthMismatch).
  { unfold cosineSimilarity.
    apply Nat.eqb_neq in Hlen. now rewrite Hlen. }
  split; [exact Hthrow|].
  intros k before after entry Hentry Hbefore. unfold topResults.
  induction before as [|e before IH]; simpl.
  - now rewrite Hentry, Hthrow.
  - inversion Hbefore as [|? ? He Hrest]; subst.
    unfold cosineSimilarity at 1. rewrite He, Nat.eqb_refl. simpl.
    destruct (accumulate vecA (embedding e) nzero nzero nzero) as [[d na] nb].
    specialize (IH Hrest).
    destruct (scoreAll vecA (before ++ entry :: after)); try discriminate.
    destruct (neqb (nsqrt na) nzero || neqb (nsqrt nb) nzero); exact IH.
Qed.

End SimilarityFacts.

(** ** Similarity on doubles and on exact numbers *)

Module NumberFacts.



(** The double [1000 * 0.7] is 700: the threshold of the service is the
    integer [beyondThreshold] compares with. *)
Lemma Float64_1000_times_07 :
  (1000 * 0x1.6666666666666p-1 = 700)%float.
Proof. reflexivity. Qed.

(** A vector of zeros has norm 0 on doubles. *)
Lemma Float64_zero_vector_norm (n : nat) :
  neqb (norm (N := Float64) (repeat 0%float n)) nzero = true.
Proof.
  assert (H : sumSquares (N := Float64) (repeat 0%float n) = 0%float).
  { unfold sumSquares. induction n as [|n IH]; [reflexivity|exact IH]. }
  unfold norm. rewrite H. reflexivity.
Qed.





End NumberFacts.

(** ** The order of doubles

    The comparator of the sort is consistent on doubles that are not NaN:
    the rounded difference [y - x] has the sign of the exact difference,
    because subtraction underflows gradually, and [<] is a strict weak
    order.  The proofs go through the specification of binary64 in
    [SpecFloat]. *)

Module DoubleOrder.
Local Open Scope Z_scope.















Ltac split_compares :=
  repeat match goal with
         | |- context [Z.compare ?a ?b] => destruct (Z.compare_spec a b)
         | |- context [Pos.compare ?a ?b] => destruct (Pos.compare_spec a b)
         end.

Lemma SFltb_asym (x y : spec_float) :
  SFltb x y = true -> SFltb y x = false.
Proof.
  unfold SFltb, SFcompare.
  destruct x as [sx|sx| |sx mx ex], y as [sy|sy| |sy my ey];
    try destruct sx; try destruct sy; try reflexivity; try discriminate;
    change (Pos.compare_cont Eq my mx) with (Pos.compare my mx);
    change (Pos.compare_cont Eq mx my) with (Pos.compare mx my);
    split_compares; subst; cbv beta iota delta [CompOpp];
    try reflexivity; try discriminate; lia.
Qed.

Lemma SFltb_negative_transitive (x y z : spec_float) :
  x <> S754_nan -> y <> S754_nan -> z <> S754_nan ->
  SFltb x y = false -> SFltb y z = false -> SFltb x z = false.
Proof.
  unfold SFltb, SFcompare. intros Nx Ny Nz.
  destruct x as [sx|sx| |sx mx ex]; try contradiction;
    destruct y as [sy|sy| |sy my ey]; try contradiction;
    destruct z as [sz|sz| |sz mz ez]; try contradiction;
    clear Nx Ny Nz;
    try destruct sx; try destruct sy; try destruct sz;
    try reflexivity; try discriminate;
    change (Pos.compare_cont Eq mx my) with (Pos.compare mx my);
    change (Pos.compare_cont Eq my mz) with (Pos.compare my mz);
    change (Pos.compare_cont Eq mx mz) with (Pos.compare mx mz);
    split_compares; subst; cbv beta iota delta [CompOpp];
    try reflexivity; try discriminate; lia.
Qed.

Lemma notNaN_spec (x : float) : notNaN x -> Prim2SF x <> S754_nan.
Proof.
  unfold notNaN. rewrite eqb_spec. intros H E. rewrite E in H. discriminate H.
Qed.


Lemma Float64_ltb_asym (x y : float) :
  (x <? y)%float = true -> (y <? x)%float = false.
Proof. rewrite !ltb_spec. apply SFltb_asym. Qed.

Lemma Float64_ltb_negative_transitive (x y z : float) :
  notNaN x -> notNaN y -> notNaN z ->
  (x <? y)%float = false -> (y <? z)%float = false -> (x <? z)%float = false.
Proof.
  intros Hx Hy Hz. rewrite !ltb_spec.
  apply SFltb_negative_transitive; auto using notNaN_spec.
Qed.


End DoubleOrder.

Module SimilarityClaims.
Import NumberFacts.

(** The claim of C6 read on a zero vector and a vector of another
    length: the norm of the first is 0 and the call throws. *)
Lemma zero_vector_length_mismatch :
  neqb (norm (N := Float64) [0; 0]%float) nzero = true
  /\ cosineSimilarity (N := Float64) [0; 0]%float [1]%float
     = Throw lengthMismatch.
Proof. split; reflexivity. Qed.

Lemma cosineSimilarity_zero_norm_witness :
  cosineSimilarity (N := Float64) [0; 0; 0]%float [1; 2; 3]%float
  = Return 0%float.
Proof.
  apply (cosineSimilarity_zero_norm (N := Float64)).
  - reflexivity.
  - left. apply (Float64_zero_vector_norm 3).
Defined.

Lemma cosineSimilarity_length_mismatch_witness :
  cosineSimilarity (N := Float64) [1; 2]%float [1; 2; 3]%float
  = Throw lengthMismatch.
Proof.
  apply (cosineSimilarity_length_mismatch (N := Float64)).
  simpl. discriminate.
Defined.


(** At the other end the square of [2^600] overflows, the norm is
    infinite and the quotient is NaN. *)
Example self_similarity_overflow :
  cosineSimilarity (N := Float64) [0x1p600]%float [0x1p600]%float
  = Return nan.
Proof. reflexivity. Qed.

(** On a vector whose squares are computed exactly the value is 1. *)
Example self_similarity_3_4 :
  cosineSimilarity (N := Float64) [3; 4]%float [3; 4]%float = Return 1%float.
Proof. reflexivity. Qed.



End SimilarityClaims.

(** ** Ranking *)

Section RankingFacts.
Context {N : Num}.








Lemma In_firstn {A : Type} (n : nat) (l : list A) (z : A) :
  In z (firstn n l) -> In z l.
Proof.
  intros Hz. rewrite <- (firstn_skipn n l). apply in_or_app. now left.
Qed.


End RankingFacts.

Section RankingConsistent.
Context {N : Num}.


(** In the ranking, entries of exactly equal similarity stand in the
    order of their index. *)
Lemma ranksBefore_tie (scores : list num) (a b : Scored) :
  consistentOn scores -> In (similarity a) scores ->
  ranksBefore a b -> similarity a = similarity b ->
  (index (data a) < index (data b))%nat.
Proof.
  intros (_ & Hasym & _) Ha [Hab Htie] Heq. apply Htie.
  rewrite <- Heq.
  destruct (nltb (similarity a) (similarity a)) eqn:E; [|reflexivity].
  now rewrite (Hasym _ _ Ha Ha E) in E.
Qed.

End RankingConsistent.

Module RankingClaims.
Import DoubleOrder.


End RankingClaims.

Module RankingWitness.
Import Script.


(** The selection on [stored]: the two chunks of similarity 1, the
    earlier one first. *)
Example topResults_stored :
  match topResults (N := Float64) [1; 0]%float 2 stored with
  | Return results => map (fun r => index (data r)) results = [0; 2]%nat
  | _ => False
  end.
Proof. vm_compute. reflexivity. Qed.

End RankingWitness.

(** ** The life cycle of the index *)

Section ServiceFacts.
Context {N : Num} {RT : Runtime}.
Open Scope js_scope.

Lemma tryCatch_rethrow {A : Type} (m : M A) (s : RAGService) (w : World) :
  tryCatch m rethrow s w = m s w.
Proof.
  unfold tryCatch, rethrow, throw.
  destruct (m s w) as [[[a|e|] s'] w']; reflexivity.
Qed.

Lemma bind_Return {A B : Type} (m : M A) (f : A -> M B) s w a s' w' :
  m s w = (Return a, s', w') -> bind m f s w = f a s' w'.
Proof. intros H. unfold bind. now rewrite H. Qed.

Lemma bind_Throw {A B : Type} (m : M A) (f : A -> M B) s w e s' w' :
  m s w = (Throw e, s', w') -> bind m f s w = (Throw e, s', w').
Proof. intros H. unfold bind. now rewrite H. Qed.

(** [getEmbedding] completes and leaves the object as it was. *)
Lemma getEmbedding_run (text : jsstring) (s : RAGService) (w : World) :
  exists o w', getEmbedding text s w = (o, s, w') /\ o <> Diverge.
Proof.
  unfold getEmbedding. rewrite tryCatch_rethrow.
  unfold bind, gets, throw, await.
  destruct (embeddings s) as [model|].
  - destruct (embedContent text w) as [[err|v] w'];
      eexists; eexists; split; try reflexivity; discriminate.
  - eexists; eexists; split; try reflexivity; discriminate.
Qed.

Lemma setChunkEmbeddings_same (s : RAGService) :
  setChunkEmbeddings (chunkEmbeddings s) s = s.
Proof. now destruct s. Qed.

Lemma embedFrom_run (rest : list jsstring) :
  forall (i : nat) (s : RAGService) (w : World),
  exists o added w',
    embedFrom i rest s w
    = (o, setChunkEmbeddings (chunkEmbeddings s ++ added) s, w')
    /\ map chunk added = firstn (length added) rest
    /\ map index added = seq i (length added)
    /\ progress o (length added) (length rest).
Proof.
  induction rest as [|c rest IH]; intros i s w.
  - exists (Return tt), [], w. simpl.
    rewrite app_nil_r, setChunkEmbeddings_same. repeat split.
  - cbn [embedFrom].
    destruct (getEmbedding_run c s w) as (o & w1 & Hget & Hnd).
    destruct o as [v|e|]; [| |contradiction].
    + rewrite (bind_Return _ _ _ _ _ _ _ Hget).
      unfold bind at 1, assign at 1.
      set (entry := {| chunk := c; embedding := v; index := i |}).
      destruct (IH (S i) (pushChunkEmbedding entry s) w1)
        as (o & added & w' & Hrun & Hchunk & Hindex & Hprog).
      exists o, (entry :: added), w'. rewrite Hrun.
      repeat split.
      * f_equal. f_equal. unfold pushChunkEmbedding, setChunkEmbeddings.
        simpl. now rewrite <- app_assoc.
      * simpl. now rewrite Hchunk.
      * simpl. now rewrite Hindex.
      * destruct o; simpl in *; lia.
    + rewrite (bind_Throw _ _ _ _ _ _ _ Hget).
      exists (Throw e), [], w1. simpl.
      rewrite app_nil_r, setChunkEmbeddings_same. repeat split. lia.
Qed.

Lemma generateChunkEmbeddings_run (s : RAGService) (w : World) :
  exists o entries w',
    generateChunkEmbeddings s w = (o, setChunkEmbeddings entries s, w')
    /\ entriesFor (documentChunks s) entries
    /\ progress o (length entries) (length (documentChunks s)).
Proof.
  unfold generateChunkEmbeddings. rewrite tryCatch_rethrow.
  unfold bind at 1, assign at 1. unfold bind at 1, gets at 1.
  destruct (embedFrom_run (documentChunks s) 0 (setChunkEmbeddings [] s) w)
    as (o & added & w' & Hrun & Hchunk & Hindex & Hprog).
  exists o, added, w'. simpl documentChunks. rewrite Hrun.
  split; [destruct s; reflexivity|].
  split; [|exact Hprog].
  repeat split; try assumption.
  destruct o; simpl in Hprog; [lia | lia | contradiction].
Qed.

Lemma loadAndProcessPDF_run (s : RAGService) (w : World) :
  exists o s' w', loadAndProcessPDF s w = (o, s', w') /\ rebuilt o s s'.
Proof.
  unfold loadAndProcessPDF. rewrite tryCatch_rethrow.
  unfold bind at 1, await at 1.
  destruct (readFile w) as [[e|pdfBuffer] w1].
  { exists (Throw e), s, w1. split; [reflexivity|]. left. eauto. }
  unfold bind at 1, await at 1.
  destruct (pdfParse pdfBuffer w1) as [[e|fullText] w2].
  { exists (Throw e), s, w2. split; [reflexivity|]. left. eauto. }
  unfold bind at 1, splitDocument.
  destruct (ChunkerFacts.splitIntoChunks_service_returns fullText)
    as [chunks ->].
  unfold ret at 1. unfold bind at 1, assign at 1.
  destruct (generateChunkEmbeddings_run (setDocumentChunks chunks s) w2)
    as (o & entries & w' & Hrun & Hentries & Hprog).
  exists o, (setChunkEmbeddings entries (setDocumentChunks chunks s)), w'.
  split; [exact Hrun|]. right. exists chunks, entries. auto.
Qed.

End ServiceFacts.

Section LifeCycleFacts.
Context {N : Num} {RT : Runtime}.
Open Scope js_scope.

Lemma rebuilt_completes o s s' : rebuilt o s s' -> o <> Diverge.
Proof.
  intros [(e & -> & _) | (chunks & entries & _ & _ & Hprog)];
    [discriminate|].
  destruct o; [discriminate | discriminate | contradiction].
Qed.

Lemma rebuilt_indexed o s s' : rebuilt o s s' -> indexed s -> indexed s'.
Proof.
  intros [(e & _ & ->) | (chunks & entries & -> & Hentries & _)] Hs;
    [exact Hs | exact Hentries].
Qed.

Lemma rebuilt_fields o s s' :
  rebuilt o s s' ->
  isInitialized s' = isInitialized s /\ embeddings s' = embeddings s.
Proof.
  intros [(e & _ & ->) | (chunks & entries & -> & _)]; split; reflexivity.
Qed.

Lemma rebuilt_Return u s s' : rebuilt (Return u) s s' -> fullyBuilt s'.
Proof.
  intros [(e & He & _) | (chunks & entries & -> & Hentries & Hprog)];
    [discriminate|].
  split; [exact Hentries | exact Hprog].
Qed.

Lemma rebuilt_Throw e s s' :
  rebuilt (Throw e) s s' ->
  s' = s \/ (length (chunkEmbeddings s') < length (documentChunks s'))%nat.
Proof.
  intros [(e' & _ & ->) | (chunks & entries & -> & _ & Hprog)];
    [now left | right; exact Hprog].
Qed.

(** [initialize]: the handle is assigned, the document is rebuilt, and
    [isInitialized] is assigned after a rebuild that returned. *)
Lemma initialize_run (s : RAGService) (w : World) :
  exists o s1 w',
    rebuilt o (setEmbeddings (Some Embedding001) s) s1
    /\ initialize s w
       = (o, match o with Return _ => setIsInitialized true s1 | _ => s1 end,
          w').
Proof.
  unfold initialize. rewrite tryCatch_rethrow.
  unfold bind at 1, assign at 1.
  destruct (loadAndProcessPDF_run (setEmbeddings (Some Embedding001) s) w)
    as (o & s1 & w' & Hrun & Hre).
  exists o, s1, w'. split; [exact Hre|].
  unfold bind, assign. rewrite Hrun.
  destruct o as [[]| |]; reflexivity.
Qed.

Lemma refreshVectorStore_run (s : RAGService) (w : World) :
  exists o s1 w',
    rebuilt o (cleared s) s1
    /\ refreshVectorStore s w
       = (o, match o with Return _ => setIsInitialized true s1 | _ => s1 end,
          w').
Proof.
  unfold refreshVectorStore. rewrite tryCatch_rethrow.
  unfold bind at 1, assign at 1. unfold bind at 1, assign at 1.
  unfold bind at 1, assign at 1.
  destruct (loadAndProcessPDF_run (cleared s) w) as (o & s1 & w' & Hrun & Hre).
  exists o, s1, w'. split; [exact Hre|].
  unfold bind, assign. fold (cleared s). rewrite Hrun.
  destruct o as [[]| |]; reflexivity.
Qed.

Lemma initialize_facts (s : RAGService) (w : World) :
  exists o s' w',
    initialize s w = (o, s', w')
    /\ o <> Diverge
    /\ (indexed s -> indexed s')
    /\ (forall u, o = Return u -> fullyBuilt s' /\ isInitialized s' = true).
Proof.
  destruct (initialize_run s w) as (o & s1 & w' & Hre & Hrun).
  eexists; eexists; eexists. split; [exact Hrun|].
  split; [now apply rebuilt_completes in Hre|]. split.
  - intros Hs. apply (rebuilt_indexed _ _ _ Hre) in Hs.
    destruct o; exact Hs.
  - intros u ->. split; [|reflexivity].
    apply rebuilt_Return in Hre. exact Hre.
Qed.

Lemma refreshVectorStore_facts (s : RAGService) (w : World) :
  exists o s' w',
    refreshVectorStore s w = (o, s', w')
    /\ o <> Diverge
    /\ indexed s'
    /\ (forall u, o = Return u -> fullyBuilt s' /\ isInitialized s' = true)
    /\ (forall e, o = Throw e ->
          isInitialized s' = false
          /\ ((documentChunks s' = [] /\ chunkEmbeddings s' = [])
              \/ (length (chunkEmbeddings s') < length (documentChunks s'))%nat)).
Proof.
  destruct (refreshVectorStore_run s w) as (o & s1 & w' & Hre & Hrun).
  eexists; eexists; eexists. split; [exact Hrun|].
  split; [now apply rebuilt_completes in Hre|]. split; [|split].
  - assert (Hc : indexed (cleared s)) by (repeat split; simpl; lia).
    apply (rebuilt_indexed _ _ _ Hre) in Hc. destruct o; exact Hc.
  - intros u ->. split; [|reflexivity].
    apply rebuilt_Return in Hre. exact Hre.
  - intros e ->. split.
    + apply rebuilt_fields in Hre. now destruct Hre as [-> _].
    + apply rebuilt_Throw in Hre. destruct Hre as [-> | Hlt];
        [left; split; reflexivity | now right].
Qed.

Lemma ensureInitialized_facts (s : RAGService) (w : World) :
  exists o s' w',
    ensureInitialized s w = (o, s', w')
    /\ o <> Diverge
    /\ (indexed s -> indexed s')
    /\ (forall u, o = Return u -> isInitialized s' = true).
Proof.
  unfold ensureInitialized, bind, gets.
  destruct (isInitialized s) eqn:E.
  - exists (Return tt), s, w.
    split; [reflexivity|]. split; [discriminate|]. split; auto.
  - destruct (initialize_facts s w) as (o & s' & w' & Hrun & Hnd & Hidx & Hret).
    exists o, s', w'.
    split; [exact Hrun|]. split; [exact Hnd|]. split; [exact Hidx|].
    intros u Hu. now destruct (Hret u Hu).
Qed.

(** The selection throws or returns. *)
Lemma topResults_completes (q : Vector) (k : Z) (entries : list ChunkData) :
  topResults q k entries <> Diverge.
Proof.
  unfold topResults.
  assert (H : scoreAll q entries <> Diverge).
  { induction entries as [|e entries IH]; simpl; [discriminate|].
    unfold cosineSimilarity.
    destruct (negb _); [discriminate|].
    destruct (accumulate _ _ _ _ _) as [[? ?] ?].
    destruct (_ || _); destruct (scoreAll q entries);
      solve [discriminate | contradiction]. }
  destruct (scoreAll q entries); solve [discriminate | contradiction].
Qed.

(** The [try] block of [searchRelevantContext] completes, and leaves the
    object as [ensureInitialized] left it. *)
Lemma searchSteps_run (query : jsstring) (k : Z) (s : RAGService) (w : World) :
  exists o s' w',
    searchSteps query k s w = (o, s', w')
    /\ o <> Diverge
    /\ exists o1 w1, ensureInitialized s w = (o1, s', w1).
Proof.
  unfold searchSteps.
  destruct (ensureInitialized_facts s w) as (o1 & s1 & w1 & Hrun & Hnd & _).
  destruct o1 as [[]|e|]; [| |contradiction].
  - rewrite (bind_Return _ _ _ _ _ _ _ Hrun).
    destruct (getEmbedding_run query s1 w1) as (o2 & w2 & Hget & Hnd2).
    destruct o2 as [v|e|]; [| |contradiction].
    + rewrite (bind_Return _ _ _ _ _ _ _ Hget).
      unfold bind, gets, liftOutcome, ret.
      pose proof (topResults_completes v k (chunkEmbeddings s1)) as Htop.
      destruct (topResults v k (chunkEmbeddings s1)) as [results|e|];
        [| |contradiction];
        eexists; eexists; eexists; (split; [reflexivity|]);
        (split; [discriminate|]); eauto.
    + rewrite (bind_Throw _ _ _ _ _ _ _ Hget).
      eexists; eexists; eexists; (split; [reflexivity|]);
        (split; [discriminate|]); eauto.
  - rewrite (bind_Throw _ _ _ _ _ _ _ Hrun).
    eexists; eexists; eexists; (split; [reflexivity|]);
      (split; [discriminate|]); eauto.
Qed.

(** [searchRelevantContext] returns a string. *)
Lemma searchRelevantContext_run (query : jsstring) (k : Z)
  (s : RAGService) (w : World) :
  exists text s' w',
    searchRelevantContext query k s w = (Return text, s', w')
    /\ exists o1 w1, ensureInitialized s w = (o1, s', w1).
Proof.
  unfold searchRelevantContext, tryCatch.
  destruct (searchSteps_run query k s w) as (o & s' & w' & -> & Hnd & Hens).
  destruct o as [text|e|]; [| |contradiction].
  - exists text, s', w'. auto.
  - exists [], s', w'. auto.
Qed.

Lemma getRelevantSections_run (userMessage : jsstring) (maxChunks : Z)
  (s : RAGService) (w : World) :
  exists text s' w',
    getRelevantSections userMessage maxChunks s w = (Return text, s', w')
    /\ (indexed s -> indexed s').
Proof.
  unfold getRelevantSections, tryCatch.
  destruct (ensureInitialized_facts s w) as (o1 & s1 & w1 & Hrun & Hnd & Hidx & _).
  destruct o1 as [[]|e|]; [| |contradiction].
  - rewrite (bind_Return _ _ _ _ _ _ _ Hrun).
    destruct (searchRelevantContext_run (extractSearchTerms userMessage)
                maxChunks s1 w1) as (text & s' & w' & Hsearch & o2 & w2 & Hens).
    rewrite (bind_Return _ _ _ _ _ _ _ Hsearch). unfold ret.
    exists text, s', w'. split; [reflexivity|].
    intros Hs.
    destruct (ensureInitialized_facts s1 w1)
      as (o3 & s3 & w3 & Hrun3 & _ & Hidx3 & _).
    rewrite Hrun3 in Hens. injection Hens as _ <- _. auto.
  - rewrite (bind_Throw _ _ _ _ _ _ _ Hrun). unfold ret.
    exists [], s1, w1. auto.
Qed.

End LifeCycleFacts.

Section LifeCycleClaims.
Context {N : Num} {RT : Runtime}.
Open Scope js_scope.

Lemma ensureInitialized_ready (s : RAGService) (w : World) :
  isInitialized s = true -> ensureInitialized s w = (Return tt, s, w).
Proof. intros H. unfold ensureInitialized, bind, gets. now rewrite H. Qed.

Lemma ensureInitialized_cold (s : RAGService) (w : World) :
  isInitialized s = false -> ensureInitialized s w = initialize s w.
Proof. intros H. unfold ensureInitialized, bind, gets. now rewrite H. Qed.

Lemma getEmbedding_refused (text : jsstring) (s : RAGService) (w : World) :
  (forall text0 w0, exists e w1, embedContent text0 w0 = (inl e, w1)) ->
  exists e w', getEmbedding text s w = (Throw e, s, w').
Proof.
  intros Hfail. unfold getEmbedding. rewrite tryCatch_rethrow.
  unfold bind, gets, throw, await.
  destruct (embeddings s) as [model|]; [|eauto].
  destruct (Hfail text w) as (e & w1 & ->). eauto.
Qed.

Lemma initialize_unreadable (s : RAGService) (w w1 : World) (e : JsError) :
  readFile w = (inl e, w1) ->
  initialize s w = (Throw e, setEmbeddings (Some Embedding001) s, w1).
Proof.
  intros Hread. unfold initialize. rewrite tryCatch_rethrow.
  unfold bind at 1, assign at 1. unfold loadAndProcessPDF.
  unfold bind at 1. rewrite tryCatch_rethrow.
  unfold bind at 1, await at 1. now rewrite Hread.
Qed.

(** C1, as the code has it.  [refreshVectorStore] clears the object
    before it rebuilds.  When the rebuild throws, the error goes to the
    caller and the object is left uninitialized, with nothing stored (the
    document was not read) or with the new chunks and the embeddings of
    fewer of them; what it holds is never the generation it held before,
    and the next call that looks at [isInitialized] starts a new
    [initialize]. *)
Theorem refreshVectorStore_failure_discards
  (s : RAGService) (w : World) (e : JsError) (s' : RAGService) (w' : World) :
  refreshVectorStore s w = (Throw e, s', w') ->
  isInitialized s' = false
  /\ ((documentChunks s' = [] /\ chunkEmbeddings s' = [])
      \/ (length (chunkEmbeddings s') < length (documentChunks s'))%nat)
  /\ (hasGeneration s ->
      ~ (documentChunks s' = documentChunks s
         /\ chunkEmbeddings s' = chunkEmbeddings s))
  /\ (forall w0, ensureInitialized s' w0 = initialize s' w0).
Proof.
  intros Hrun.
  destruct (refreshVectorStore_facts s w)
    as (o & s2 & w2 & Hrun2 & _ & _ & _ & Hthrow).
  rewrite Hrun in Hrun2. injection Hrun2 as <- <- <-.
  destruct (Hthrow e eq_refl) as [Hinit Hshape].
  split; [exact Hinit|]. split; [exact Hshape|]. split.
  - intros (Hdc & Hce & Hlen & _) [Edc Ece].
    destruct Hshape as [[Hnil _] | Hlt].
    + apply Hdc. now rewrite <- Edc.
    + rewrite Edc, Ece in Hlt. lia.
  - intros w0. now apply ensureInitialized_cold.
Qed.

(** C2, as the code has it.  [searchRelevantContext] returns a string on
    every object and in every world.  Whatever its [try] block throws is
    caught and the empty string is returned; so it is when the embedding
    of the query is refused on an initialized service. *)
Theorem searchRelevantContext_swallows
  (query : jsstring) (k : Z) (s : RAGService) (w : World) :
  (exists text s' w',
      searchRelevantContext query k s w = (Return text, s', w'))
  /\ (forall e s' w',
        searchSteps query k s w = (Throw e, s', w') ->
        searchRelevantContext query k s w = (Return [], s', w'))
  /\ (forall e w',
        isInitialized s = true ->
        embeddings s = Some Embedding001 ->
        embedContent query w = (inl e, w') ->
        searchRelevantContext query k s w = (Return [], s, w')).
Proof.
  split; [|split].
  - destruct (searchRelevantContext_run query k s w)
      as (text & s' & w' & Hrun & _). eauto.
  - intros e s' w' Hsteps. unfold searchRelevantContext, tryCatch.
    now rewrite Hsteps.
  - intros e w' Hinit Hmodel Hembed.
    unfold searchRelevantContext, tryCatch, searchSteps.
    rewrite (bind_Return _ _ _ _ _ _ _ (ensureInitialized_ready s w Hinit)).
    assert (Hget : getEmbedding query s w = (Throw e, s, w')).
    { unfold getEmbedding. rewrite tryCatch_rethrow.
      unfold bind, gets, await. now rewrite Hmodel, Hembed. }
    now rewrite (bind_Throw _ _ _ _ _ _ _ Hget).
Qed.




(** C8.  [getRelevantSections] returns a string for every message, every
    count, every object and every behaviour of the file system, the
    parser and the provider.  The string is empty whenever the
    initialization it starts throws and whenever the [try] block of the
    search throws; in particular when the provider refuses every request,
    and when the document cannot be read on a service not yet
    initialized. *)
Theorem getRelevantSections_never_throws
  (userMessage : jsstring) (maxChunks : Z) (s : RAGService) (w : World) :
  (exists text s' w',
      getRelevantSections userMessage maxChunks s w = (Return text, s', w'))
  /\ (forall e s1 w1,
        ensureInitialized s w = (Throw e, s1, w1) ->
        getRelevantSections userMessage maxChunks s w = (Return [], s1, w1))
  /\ (forall u s1 w1 e s' w',
        ensureInitialized s w = (Return u, s1, w1) ->
        searchSteps (extractSearchTerms userMessage) maxChunks s1 w1
        = (Throw e, s', w') ->
        getRelevantSections userMessage maxChunks s w = (Return [], s', w'))
  /\ ((forall text w0, exists e w1, embedContent text w0 = (inl e, w1)) ->
      exists s' w',
        getRelevantSections userMessage maxChunks s w = (Return [], s', w'))
  /\ (forall e w1,
        readFile w = (inl e, w1) -> isInitialized s = false ->
        getRelevantSections userMessage maxChunks s w
        = (Return [], setEmbeddings (Some Embedding001) s, w1)).
Proof.
  assert (Hcold : forall e s1 w1,
             ensureInitialized s w = (Throw e, s1, w1) ->
             getRelevantSections userMessage maxChunks s w
             = (Return [], s1, w1)).
  { intros e s1 w1 Hens. unfold getRelevantSections, tryCatch.
    now rewrite (bind_Throw _ _ _ _ _ _ _ Hens). }
  assert (Hsearch : forall u s1 w1 e s' w',
             ensureInitialized s w = (Return u, s1, w1) ->
             searchSteps (extractSearchTerms userMessage) maxChunks s1 w1
             = (Throw e, s', w') ->
             getRelevantSections userMessage maxChunks s w
             = (Return [], s', w')).
  { intros u s1 w1 e s' w' Hens Hsteps. unfold getRelevantSections, tryCatch.
    rewrite (bind_Return _ _ _ _ _ _ _ Hens).
    unfold bind, searchRelevantContext, tryCatch. now rewrite Hsteps. }
  split; [|split; [exact Hcold|split; [exact Hsearch|split]]].
  - destruct (getRelevantSections_run userMessage maxChunks s w)
      as (text & s' & w' & Hrun & _). eauto.
  - intros Hfail.
    destruct (ensureInitialized_facts s w)
      as (o & s1 & w1 & Hens & Hnd & _ & Hready).
    destruct o as [u|e|]; [|eauto|contradiction].
    specialize (Hready u eq_refl).
    destruct (getEmbedding_refused (extractSearchTerms userMessage) s1 w1 Hfail)
      as (e & w2 & Hget).
    exists s1, w2. apply (Hsearch u s1 w1 e); [exact Hens|].
    unfold searchSteps.
    rewrite (bind_Return _ _ _ _ _ _ _ (ensureInitialized_ready s1 w1 Hready)).
    now rewrite (bind_Throw _ _ _ _ _ _ _ Hget).
  - intros e w1 Hread Hinit. apply (Hcold e).
    rewrite (ensureInitialized_cold s w Hinit).
    now apply initialize_unreadable.
Qed.

End LifeCycleClaims.

(** ** The claims on the scripted runtime *)

Module LifeCycleWitness.
Import Script.

(** [serving] is what the first [initialize] leaves of the constructed
    object when the document is [shortText]. *)
Example initialize_reaches_serving :
  initialize (RT := scripted) constructed
    {| document := Some shortText; quota := 5 |}
  = (Return tt, serving, {| document := Some shortText; quota := 4 |}).
Proof. vm_compute. reflexivity. Qed.

Lemma serving_hasGeneration : hasGeneration serving.
Proof. repeat split; simpl; discriminate. Qed.

Lemma refresh_offline :
  refreshVectorStore serving offline
  = (Throw "ENOENT: no such file or directory"%string,
     afterFailedRefresh, offline).
Proof. reflexivity. Qed.

(** The claim of C1 on [serving] when the file has gone: the refresh
    throws and the chunk of the previous generation is no longer there. *)
Lemma refresh_discards_generation :
  ~ refreshKeepsGeneration (RT := scripted).
Proof.
  intros H.
  destruct (H serving offline _ _ _ serving_hasGeneration refresh_offline)
    as [Hdc _].
  discriminate Hdc.
Qed.

(** The same service when the document now has two chunks and the
    provider grants one embedding: the refresh throws and leaves the two
    new chunks with one entry. *)
Example refresh_rationed :
  let '(o, s', _) := refreshVectorStore (RT := scripted) serving rationed in
  o = Throw "429 Too Many Requests"%string
  /\ map (@length N) (documentChunks s') = [1000; 700]%nat
  /\ map index (chunkEmbeddings s') = [0%nat]
  /\ isInitialized s' = false.
Proof. vm_compute. repeat split. Qed.

Lemma refreshVectorStore_failure_discards_witness :
  isInitialized afterFailedRefresh = false
  /\ ((documentChunks afterFailedRefresh = []
       /\ chunkEmbeddings afterFailedRefresh = [])
      \/ (length (chunkEmbeddings afterFailedRefresh)
          < length (documentChunks afterFailedRefresh))%nat)
  /\ (hasGeneration serving ->
      ~ (documentChunks afterFailedRefresh = documentChunks serving
         /\ chunkEmbeddings afterFailedRefresh = chunkEmbeddings serving))
  /\ (forall w0 : ScriptWorld,
        ensureInitialized afterFailedRefresh w0
        = initialize afterFailedRefresh w0).
Proof.
  exact (refreshVectorStore_failure_discards (RT := scripted)
           serving offline _ afterFailedRefresh offline refresh_offline).
Defined.

(** The claim of C2 on [serving] when the provider refuses the query:
    the call returns the empty string. *)
Lemma search_does_not_propagate :
  searchRelevantContext (RT := scripted) (lit "password reset") 3
    serving refusing
  = (Return [], serving, refusing)
  /\ ~ searchPropagates (RT := scripted).
Proof.
  split; [reflexivity|].
  intros H.
  destruct (H (lit "password reset") 3%Z serving refusing _ _
              eq_refl eq_refl eq_refl) as (e' & s' & w'' & Hthrow).
  discriminate Hthrow.
Qed.

Lemma searchRelevantContext_swallows_witness :
  searchRelevantContext (RT := scripted) (lit "password reset") 3
    serving refusing
  = (Return [], serving, refusing).
Proof.
  apply (searchRelevantContext_swallows (RT := scripted)
           (lit "password reset") 3 serving refusing)
    with (e := "429 Too Many Requests"%string); reflexivity.
Defined.




Lemma getRelevantSections_never_throws_witness :
  (exists s' w',
      getRelevantSections (RT := unreachable)
        (lit "How do I reset my password") 3 serving refusing
      = (Return [], s', w'))
  /\ getRelevantSections (RT := scripted)
       (lit "How do I reset my password") 3 constructed offline
     = (Return [], setEmbeddings (Some Embedding001) constructed, offline).
Proof.
  split.
  - apply (getRelevantSections_never_throws (RT := unreachable)
             (lit "How do I reset my password") 3 serving refusing).
    intros text w0. exists "401 Unauthorized"%string, w0. reflexivity.
  - apply (getRelevantSections_never_throws (RT := scripted)
             (lit "How do I reset my password") 3 constructed offline)
      with (e := "ENOENT: no such file or directory"%string); reflexivity.
Defined.

End LifeCycleWitness.

(* ================================================================== *)
(** * Part III: further properties of the module and its callers *)
(* ================================================================== *)

(** ** More on strings *)

Module TrimFacts.
Local Open Scope Z_scope.

Lemma lastIndexFrom_lower (c : N) (s : jsstring) :
  forall i acc, -1 <= acc -> 0 <= i -> -1 <= lastIndexFrom c s i acc.
Proof.
  induction s as [|x s IH]; intros i acc Hacc Hi; simpl; [exact Hacc|].
  apply IH; [destruct (N.eqb x c)|]; lia.
Qed.

Lemma lastIndexOf_lower (s : jsstring) (c : N) : -1 <= lastIndexOf s c.
Proof. apply lastIndexFrom_lower; lia. Qed.

(** [trimStart] drops a prefix of white space and stops at the first
    unit that is not white space. *)
Lemma trimStart_split (s : jsstring) :
  exists gap, s = gap ++ trimStart s
              /\ Forall (fun c => isWhiteSpace c = true) gap.
Proof.
  induction s as [|x s (gap & Hs & Hgap)]; simpl.
  - exists []. split; [reflexivity|constructor].
  - destruct (isWhiteSpace x) eqn:E.
    + exists (x :: gap). split; [simpl; now f_equal|now constructor].
    + exists []. split; [reflexivity|constructor].
Qed.

Lemma trimStart_head (s : jsstring) (x : N) (rest : jsstring) :
  trimStart s = x :: rest -> isWhiteSpace x = false.
Proof.
  induction s as [|y s IH]; simpl; [discriminate|].
  destruct (isWhiteSpace y) eqn:E; [exact IH|].
  intros H. injection H as <- _. exact E.
Qed.

Lemma trimStart_fixed (s : jsstring) :
  match s with
  | [] => True
  | x :: _ => isWhiteSpace x = false
  end -> trimStart s = s.
Proof. destruct s as [|x s]; simpl; [reflexivity|]. now intros ->. Qed.

Lemma trimStart_idempotent (s : jsstring) :
  trimStart (trimStart s) = trimStart s.
Proof.
  apply trimStart_fixed. destruct (trimStart s) as [|x rest] eqn:E; [exact I|].
  exact (trimStart_head s x rest E).
Qed.

(** What [trim] returns has no white space at either end: trimming it
    again, from the left or from the right, changes nothing. *)
Lemma trim_edges (s : jsstring) :
  trimStart (trim s) = trim s /\ trimEnd (trim s) = trim s.
Proof.
  unfold trim, trimEnd. set (t := trimStart s).
  destruct (trimStart_split (rev t)) as (gap & Hrev & _).
  set (t' := trimStart (rev t)) in *.
  assert (Ht : t = rev t' ++ rev gap).
  { rewrite <- (rev_involutive t), Hrev, rev_app_distr. reflexivity. }
  split.
  - apply trimStart_fixed.
    destruct (rev t') as [|x rest] eqn:E; [exact I|].
    try rewrite E in Ht. simpl in Ht.
    apply (trimStart_head s x (rest ++ rev gap)). exact Ht.
  - rewrite rev_involutive. unfold t'. now rewrite trimStart_idempotent.
Qed.

Lemma trim_idempotent (s : jsstring) : trim (trim s) = trim s.
Proof.
  destruct (trim_edges s) as [Hstart Hend].
  unfold trim at 1. now rewrite Hstart, Hend.
Qed.

Lemma trimStart_length (s : jsstring) : len (trimStart s) <= len s.
Proof.
  destruct (trimStart_split s) as (gap & Hs & _).
  rewrite Hs at 2. unfold len. rewrite length_app. lia.
Qed.

Lemma trim_length (s : jsstring) : len (trim s) <= len s.
Proof.
  unfold trim, trimEnd.
  pose proof (trimStart_length s) as H1.
  pose proof (trimStart_length (rev (trimStart s))) as H2.
  unfold len in *. rewrite length_rev in *. lia.
Qed.

End TrimFacts.

(** ** More on the chunker *)

Module ChunkerExtras.
Import Chunker ChunkerFacts TrimFacts Script.
Local Open Scope Z_scope.

Lemma slice_length_text (s : jsstring) (a b : Z) : len (slice s a b) <= len s.
Proof.
  unfold slice, len. rewrite length_firstn, length_skipn. lia.
Qed.

(** The chunk a pass cuts is a slice of the text no longer than
    [chunkSize]. *)
Lemma splitStep_chunk (text : jsstring) (chunkSize overlap start : Z) :
  0 <= chunkSize -> start < len text ->
  let chunk := fst (splitStep text chunkSize overlap start) in
  len chunk <= chunkSize /\ exists a b, chunk = slice text a b.
Proof.
  intros Hc Hs. unfold splitStep.
  set (end_ := Z.min (start + chunkSize) (len text)).
  assert (Hraw : len (slice text start end_) <= chunkSize).
  { pose proof (slice_length_le text start end_ ltac:(lia)). lia. }
  destruct (end_ <? len text); [|cbn [fst]; eauto].
  set (breakPoint := Z.max _ _).
  destruct (beyondThreshold breakPoint start chunkSize); cbn [fst]; [|eauto].
  split; [|eauto].
  pose proof (lastIndexOf_lower (slice text start end_) period).
  pose proof (lastIndexOf_upper (slice text start end_) period).
  pose proof (lastIndexOf_upper (slice text start end_) newline).
  pose proof (slice_length_le text start (start + breakPoint + 1)
                ltac:(unfold breakPoint; lia)).
  unfold breakPoint in *. lia.
Qed.

Lemma pushChunk_wellCut (text : jsstring) (chunkSize : Z)
  (chunks : list jsstring) (chunk : jsstring) :
  Forall (wellCut text chunkSize) chunks ->
  len chunk <= chunkSize -> (exists a b, chunk = slice text a b) ->
  Forall (wellCut text chunkSize) (pushChunk chunks chunk).
Proof.
  intros Hchunks Hlen (a & b & Hslice). unfold pushChunk.
  destruct (50 <? len (trim chunk)) eqn:E; [|exact Hchunks].
  apply Z.ltb_lt in E. apply Forall_app. split; [exact Hchunks|].
  constructor; [|constructor].
  pose proof (trim_length chunk). destruct (trim_edges chunk) as [Hl Hr].
  pose proof (slice_length_text text a b). rewrite <- Hslice in *.
  repeat split; try assumption; try lia.
  exists a, b. now rewrite <- Hslice.
Qed.

Lemma splitLoop_wellCut (text : jsstring) (chunkSize overlap : Z) (fuel : nat) :
  0 <= chunkSize ->
  forall (start : Z) (chunks result : list jsstring),
    Forall (wellCut text chunkSize) chunks ->
    splitLoop fuel text chunkSize overlap start chunks = Some result ->
    Forall (wellCut text chunkSize) result.
Proof.
  intros Hc. induction fuel as [|fuel IH]; intros start chunks result Hchunks;
    cbn [splitLoop]; [discriminate|].
  destruct (start <? len text) eqn:E.
  - apply Z.ltb_lt in E.
    pose proof (splitStep_chunk text chunkSize overlap start Hc E) as Hstep.
    destruct (splitStep text chunkSize overlap start) as [chunk start'].
    cbn [fst] in Hstep. destruct Hstep as [Hlen Hslice].
    apply IH. now apply pushChunk_wellCut.
  - intros H. injection H as <-. exact Hchunks.
Qed.

(** X1.  Whatever [splitIntoChunks] returns for a window size
    [chunkSize >= 0]: every chunk is a trimmed slice of the text, without
    white space at either end, longer than 50 units and no longer than
    [chunkSize].  So a window of at most 50 units, or a text of at most
    50 units, gives no chunk at all. *)
Theorem splitIntoChunks_chunks_wellCut
  (fuel : nat) (text : jsstring) (chunkSize overlap : Z)
  (chunks : list jsstring) :
  0 <= chunkSize ->
  splitIntoChunks fuel text chunkSize overlap = Some chunks ->
  Forall (wellCut text chunkSize) chunks
  /\ (chunkSize <= 50 \/ len text <= 50 -> chunks = []).
Proof.
  intros Hc Hrun.
  assert (Hall : Forall (wellCut text chunkSize) chunks).
  { apply (splitLoop_wellCut text chunkSize overlap fuel Hc 0 [] chunks);
      [constructor | exact Hrun]. }
  split; [exact Hall|].
  intros Hsmall. destruct chunks as [|chunk rest]; [reflexivity|].
  inversion Hall as [|? ? (Hlen & Htext & _) _]; subst. lia.
Qed.

Lemma splitIntoChunks_chunks_wellCut_witness :
  Forall (wellCut longText 1000) [repeat 97%N 1000; repeat 97%N 700]
  /\ (1000 <= 50 \/ len longText <= 50 ->
      [repeat 97%N 1000; repeat 97%N 700] = []).
Proof.
  apply (splitIntoChunks_chunks_wellCut 3 longText 1000 200);
    [lia | vm_compute; reflexivity].
Defined.






(** X3.  An overlap below the window size is not enough to leave the
    loop.  When the text is longer than one window, the last period or
    newline of the first window lies beyond 70 percent of it, and the
    overlap is the length of the chunk cut there, the first pass puts
    [start] back at 0 and every pass after it does the same. *)
Theorem splitIntoChunks_stuck_on_break
  (text : jsstring) (chunkSize overlap : Z) :
  0 <= chunkSize -> chunkSize < len text ->
  let window := slice text 0 chunkSize in
  let breakPoint :=
    Z.max (lastIndexOf window period) (lastIndexOf window newline) in
  beyondThreshold breakPoint 0 chunkSize = true ->
  overlap = breakPoint + 1 ->
  overlap <= chunkSize
  /\ forall fuel, splitCompletion fuel text chunkSize overlap = Diverge.
Proof.
  intros Hc Hlen window breakPoint Hbeyond Ho.
  assert (Hstep : snd (splitStep text chunkSize overlap 0) = 0).
  { unfold splitStep.
    replace (Z.min (0 + chunkSize) (len text)) with chunkSize by lia.
    assert (E : (chunkSize <? len text) = true) by (apply Z.ltb_lt; lia).
    rewrite E. fold window. fold breakPoint. rewrite Hbeyond.
    cbn [snd]. lia. }
  split.
  - pose proof (lastIndexOf_upper window period).
    pose proof (lastIndexOf_upper window newline).
    pose proof (slice_length_le text 0 chunkSize ltac:(lia)).
    fold window in H1. unfold breakPoint in Ho. lia.
  - intros fuel. unfold splitCompletion, splitIntoChunks.
    assert (Hloop : forall chunks,
               splitLoop fuel text chunkSize overlap 0 chunks = None).
    { induction fuel as [|fuel IH]; intros chunks; cbn [splitLoop];
        [reflexivity|].
      assert (E : (0 <? len text) = true) by (apply Z.ltb_lt; lia).
      rewrite E.
      destruct (splitStep text chunkSize overlap 0) as [chunk start'].
      cbn [snd] in Hstep. subst start'. apply IH. }
    now rewrite Hloop.
Qed.

(** Eight letters, a period and five letters, cut with a window of 10
    and an overlap of 9. *)
Lemma splitIntoChunks_stuck_on_break_witness :
  (9 <= 10)%Z
  /\ forall fuel,
       splitCompletion fuel (lit "aaaaaaaa.aaaaa") 10 9 = Diverge.
Proof.
  apply (splitIntoChunks_stuck_on_break (lit "aaaaaaaa.aaaaa") 10 9);
    [lia | vm_compute; reflexivity | reflexivity | reflexivity].
Defined.

End ChunkerExtras.

(** ** More on the methods of the service *)

Section ServiceExtras.
Context {N : Num} {RT : Runtime}.
Open Scope js_scope.

Lemma ensureInitialized_initialized (s : RAGService) (w : World) :
  isInitialized s = true -> ensureInitialized s w = (Return tt, s, w).
Proof. intros H. unfold ensureInitialized, bind, gets. now rewrite H. Qed.

(** After the check of [isInitialized] the [try] block of the search is
    the one of an initialized service. *)
Lemma searchSteps_after_check (query : jsstring) (k : Z)
  (s : RAGService) (w : World) (u : unit) (s1 : RAGService) (w1 : World) :
  ensureInitialized s w = (Return u, s1, w1) ->
  searchSteps query k s w = searchSteps query k s1 w1.
Proof.
  intros Hens.
  destruct (ensureInitialized_facts s w)
    as (o & s2 & w2 & Hrun & _ & _ & Hready).
  rewrite Hens in Hrun. injection Hrun as <- <- <-.
  specialize (Hready u eq_refl).
  unfold searchSteps.
  rewrite (bind_Return _ _ _ _ _ _ _ Hens).
  now rewrite (bind_Return _ _ _ _ _ _ _
                 (ensureInitialized_initialized s1 w1 Hready)).
Qed.

(** X4.  [getRelevantSections] is [searchRelevantContext] on the
    extracted search terms: on every object and in every world the two
    calls give the same string, the same object and the same world.  The
    check of [isInitialized] and the [try] of the wrapper add nothing to
    those of the search. *)
Theorem getRelevantSections_is_search_on_terms
  (userMessage : jsstring) (maxChunks : Z) (s : RAGService) (w : World) :
  getRelevantSections userMessage maxChunks s w
  = searchRelevantContext (extractSearchTerms userMessage) maxChunks s w.
Proof.
  set (terms := extractSearchTerms userMessage).
  destruct (ensureInitialized_facts s w) as (o & s1 & w1 & Hens & Hnd & _).
  destruct o as [[]|e|]; [| |contradiction].
  - unfold getRelevantSections. fold terms. unfold tryCatch at 1.
    rewrite (bind_Return _ _ _ _ _ _ _ Hens).
    destruct (searchRelevantContext_run terms maxChunks s1 w1)
      as (text & s' & w' & Hsearch & _).
    rewrite (bind_Return _ _ _ _ _ _ _ Hsearch). unfold ret.
    rewrite <- Hsearch. unfold searchRelevantContext, tryCatch.
    now rewrite (searchSteps_after_check terms maxChunks s w tt s1 w1 Hens).
  - unfold getRelevantSections, searchRelevantContext, searchSteps.
    fold terms. unfold tryCatch.
    now rewrite !(bind_Throw _ _ _ _ _ _ _ Hens).
Qed.

(** X5.  A query on an initialized service returns and leaves the object
    as it was.  It reaches the world through one call of [embedContent]
    on the query and nothing else: the file is not read and no chunk is
    embedded again; with no model handle the world is not touched at
    all. *)
Theorem searchRelevantContext_initialized_frame
  (query : jsstring) (k : Z) (s : RAGService) (w : World) :
  isInitialized s = true ->
  exists text,
    searchRelevantContext query k s w
    = (Return text, s,
       match embeddings s with
       | Some _ => snd (embedContent query w)
       | None => w
       end).
Proof.
  intros Hinit. unfold searchRelevantContext, tryCatch, searchSteps.
  rewrite (bind_Return _ _ _ _ _ _ _ (ensureInitialized_initialized s w Hinit)).
  unfold getEmbedding. unfold bind at 1. rewrite tryCatch_rethrow.
  unfold bind at 1, gets at 1.
  destruct (embeddings s) as [model|]; [|exists []; reflexivity].
  unfold await. destruct (embedContent query w) as [[e|v] w']; cbn [snd];
    [exists []; reflexivity|].
  unfold bind, gets, liftOutcome, ret.
  pose proof (topResults_completes v k (chunkEmbeddings s)) as Htop.
  destruct (topResults v k (chunkEmbeddings s));
    [eexists; reflexivity | exists []; reflexivity | contradiction].
Qed.

(** X6.  [initialize] never assigns [false] to [isInitialized].  When it
    throws, the flag is what it was before the call and the model handle
    is set; the chunks and the embeddings are those of before (the
    document was not read or not parsed) or the new chunks with the
    embeddings of fewer of them.  So a service that was initialized is
    still taken for initialized after an [initialize] that failed half
    way through the embeddings. *)
Theorem initialize_failure_keeps_flag
  (s : RAGService) (w : World) (e : JsError) (s' : RAGService) (w' : World) :
  initialize s w = (Throw e, s', w') ->
  isInitialized s' = isInitialized s
  /\ embeddings s' = Some Embedding001
  /\ ((documentChunks s' = documentChunks s
       /\ chunkEmbeddings s' = chunkEmbeddings s)
      \/ (indexed s'
          /\ (length (chunkEmbeddings s') < length (documentChunks s'))%nat)).
Proof.
  intros Hrun.
  destruct (initialize_run s w) as (o & s1 & w1 & Hre & Hrun1).
  rewrite Hrun in Hrun1. injection Hrun1 as <- -> <-.
  destruct (rebuilt_fields _ _ _ Hre) as [Hflag Hmodel].
  split; [exact Hflag|]. split; [exact Hmodel|].
  destruct Hre as [(e' & _ & ->) | (chunks & entries & -> & Hentries & Hprog)].
  - left. split; reflexivity.
  - right. split; [exact Hentries | exact Hprog].
Qed.


End ServiceExtras.

Module ServiceExtrasWitness.
Import Script.

(** [serving] when the document has grown to two chunks and the provider
    grants one embedding: [initialize] throws and the object, still
    marked initialized, holds two chunks and one embedding. *)
Lemma initialize_rationed :
  initialize (RT := scripted) serving rationed
  = (Throw "429 Too Many Requests"%string,
     {| embeddings := Some Embedding001;
        documentChunks := [repeat 97%N 1000; repeat 97%N 700];
        chunkEmbeddings :=
          [{| chunk := repeat 97%N 1000; embedding := [1; 0]%float;
              index := 0 |}];
        isInitialized := true |},
     {| document := Some longText; quota := 0 |}).
Proof. vm_compute. reflexivity. Qed.

Lemma searchRelevantContext_initialized_frame_witness :
  exists text,
    searchRelevantContext (RT := scripted) (lit "password reset") 3
      serving {| document := None; quota := 1 |}
    = (Return text, serving, {| document := None; quota := 0 |}).
Proof.
  apply (searchRelevantContext_initialized_frame (RT := scripted)
           (lit "password reset") 3 serving
           {| document := None; quota := 1 |}).
  reflexivity.
Defined.

Lemma initialize_failure_keeps_flag_witness :
  let s' := snd (fst (initialize (RT := scripted) serving rationed)) in
  isInitialized s' = isInitialized serving
  /\ embeddings s' = Some Embedding001
  /\ ((documentChunks s' = documentChunks serving
       /\ chunkEmbeddings s' = chunkEmbeddings serving)
      \/ (indexed s'
          /\ (length (chunkEmbeddings s') < length (documentChunks s'))%nat)).
Proof.
  rewrite initialize_rationed. cbn [fst snd].
  exact (initialize_failure_keeps_flag (RT := scripted)
           serving rationed _ _ _ initialize_rationed).
Defined.


End ServiceExtrasWitness.

(** ** The text of an answer and the search terms *)

Module TextFacts.
Local Open Scope Z_scope.


Lemma join_cons_head (sep p : jsstring) (rest : list jsstring) :
  exists tail, join sep (p :: rest) = p ++ tail.
Proof.
  destruct rest as [|q rest]; simpl.
  - exists []. now rewrite app_nil_r.
  - eauto.
Qed.

Lemma mapIndexed_length {A B : Type} (f : nat -> A -> B) (l : list A) :
  forall i, length (mapIndexed f i l) = length l.
Proof.
  induction l as [|x l IH]; intros i; simpl; [reflexivity|].
  now rewrite IH.
Qed.

(** No piece of [split(/\s+/)] holds white space. *)
Lemma splitGaps_solid (s : jsstring) :
  forall (cur : jsstring) (inGap : bool),
    solid cur -> Forall solid (splitGaps s cur inGap).
Proof.
  induction s as [|x s IH]; intros cur inGap Hcur; simpl.
  - constructor; [|constructor]. now apply Forall_rev.
  - destruct (isWhiteSpace x) eqn:E.
    + destruct inGap; [now apply IH|].
      constructor; [now apply Forall_rev | apply IH; constructor].
    + apply IH. now constructor.
Qed.

(** The pieces and the gaps between them fit in the string. *)
Lemma splitGaps_weight (s : jsstring) :
  forall (cur : jsstring) (inGap : bool),
    weight (splitGaps s cur inGap) <= len s + len cur + 1.
Proof.
  induction s as [|x s IH]; intros cur inGap; cbn [splitGaps].
  - cbn [weight]. unfold len. rewrite length_rev. simpl. lia.
  - replace (len (x :: s)) with (1 + len s)
      by (unfold len; simpl length; lia).
    destruct (isWhiteSpace x).
    + destruct inGap.
      * specialize (IH cur true). lia.
      * specialize (IH [] true). cbn [weight].
        unfold len in *. rewrite length_rev. simpl length in IH. lia.
    + specialize (IH (x :: cur) false).
      replace (len (x :: cur)) with (1 + len cur) in IH
        by (unfold len; simpl length; lia).
      lia.
Qed.

Lemma filter_weight (f : jsstring -> bool) (parts : list jsstring) :
  weight (filter f parts) <= weight parts.
Proof.
  induction parts as [|p parts IH]; simpl; [lia|].
  pose proof (len_nonneg p). destruct (f p); simpl; lia.
Qed.

Lemma weight_nonneg (parts : list jsstring) : 0 <= weight parts.
Proof.
  induction parts as [|p parts IH]; simpl; [lia|].
  pose proof (len_nonneg p). lia.
Qed.

Lemma firstn_weight (n : nat) :
  forall parts, weight (firstn n parts) <= weight parts.
Proof.
  induction n as [|n IH]; intros [|p parts]; simpl; try lia.
  - pose proof (weight_nonneg parts). pose proof (len_nonneg p). lia.
  - specialize (IH parts). lia.
Qed.

Lemma join_weight (sep : jsstring) (parts : list jsstring) :
  len sep = 1 -> parts <> [] -> len (join sep parts) + 1 <= weight parts.
Proof.
  intros Hsep Hne. induction parts as [|p parts IH]; [contradiction|].
  destruct parts as [|q parts].
  - simpl. lia.
  - change (join sep (p :: q :: parts)) with (p ++ sep ++ join sep (q :: parts)).
    specialize (IH ltac:(discriminate)).
    cbn [weight] in *. unfold len in *. rewrite !length_app. lia.
Qed.

(** Reading a solid word moves it to the piece being read. *)
Lemma splitGaps_word (word : jsstring) :
  solid word ->
  forall (rest cur : jsstring),
    splitGaps (word ++ rest) cur false
    = splitGaps rest (rev word ++ cur) false.
Proof.
  induction 1 as [|x word Hx _ IH]; intros rest cur; [reflexivity|].
  simpl. rewrite Hx, IH. now rewrite <- app_assoc.
Qed.

(** Splitting what [join(' ')] made of solid words that are not empty
    gives the words back. *)
Lemma split_join (words : list jsstring) :
  words <> [] ->
  Forall (fun word => word <> [] /\ solid word) words ->
  splitWhiteSpace (join (lit " ") words) = words.
Proof.
  intros Hne Hwords. unfold splitWhiteSpace.
  induction Hwords as [|p rest [Hp Hsolid] Hrest IH]; [contradiction|].
  destruct rest as [|q rest].
  - simpl. rewrite <- (app_nil_r p) at 1.
    rewrite splitGaps_word by assumption. simpl.
    now rewrite app_nil_r, rev_involutive.
  - change (join (lit " ") (p :: q :: rest))
      with (p ++ 32%N :: join (lit " ") (q :: rest)).
    rewrite splitGaps_word by assumption.
    rewrite app_nil_r. cbn [splitGaps]. change (isWhiteSpace 32) with true.
    cbv iota. rewrite rev_involutive. f_equal.
    specialize (IH ltac:(discriminate)).
    inversion Hrest as [|? ? [Hq Hqsolid] _]; subst.
    destruct (join_cons_head (lit " ") q rest) as [tail Htail].
    unfold jsstring in *. rewrite Htail in IH |- *.
    destruct q as [|x q]; [contradiction|].
    inversion Hqsolid as [|? ? Hx _]; subst.
    cbn [app splitGaps] in *. rewrite Hx in *. exact IH.
Qed.

End TextFacts.

Section TextExtras.
Context {N : Num} {RT : Runtime}.
Import TextFacts.
Open Scope js_scope.

(** The keywords [extractSearchTerms] joins. *)
Lemma keywords_facts (message : jsstring) :
  let keywords :=
    firstn 5 (filter (fun word => (3 <? len word)%Z)
                (splitWhiteSpace (toLowerCase message))) in
  (length keywords <= 5)%nat
  /\ Forall (fun word => (3 < len word)%Z /\ solid word) keywords.
Proof.
  intros keywords. split; [apply firstn_le_length|].
  apply Forall_forall. intros word Hword.
  apply In_firstn, filter_In in Hword. destruct Hword as [Hin Hlen].
  split; [now apply Z.ltb_lt|].
  pose proof (splitGaps_solid (toLowerCase message) [] false
                ltac:(constructor)) as Hsolid.
  rewrite Forall_forall in Hsolid. now apply Hsolid.
Qed.

(** X8.  The search terms are at most five words joined by single
    spaces; each word is a piece of the lower-cased message between white
    space, longer than three units and free of white space.  The result
    is never longer than the lower-cased message, and it is empty exactly
    when the message has no word longer than three units. *)
Theorem extractSearchTerms_keywords (message : jsstring) :
  exists keywords,
    extractSearchTerms message = join (lit " ") keywords
    /\ (length keywords <= 5)%nat
    /\ Forall (fun word =>
                 (3 < len word)%Z /\ solid word
                 /\ In word (splitWhiteSpace (toLowerCase message)))
         keywords
    /\ (len (extractSearchTerms message) <= len (toLowerCase message))%Z
    /\ (extractSearchTerms message = []
        <-> Forall (fun word => (len word <= 3)%Z)
              (splitWhiteSpace (toLowerCase message))).
Proof.
  destruct (keywords_facts message) as [Hcount Hwords].
  set (words := splitWhiteSpace (toLowerCase message)) in *.
  set (long := filter (fun word => (3 <? len word)%Z) words) in *.
  exists (firstn 5 long).
  split; [reflexivity|]. split; [exact Hcount|]. split; [|split].
  - rewrite Forall_forall in Hwords |- *. intros word Hword.
    destruct (Hwords word Hword) as [Hlen Hsolid].
    repeat split; try assumption.
    apply In_firstn, filter_In in Hword. tauto.
  - unfold extractSearchTerms. fold words. fold long.
    destruct (firstn 5 long) as [|p rest] eqn:E;
      [apply len_nonneg | rewrite <- E].
    pose proof (join_weight (lit " ") (firstn 5 long) eq_refl
                  ltac:(rewrite E; discriminate)).
    pose proof (firstn_weight 5 long).
    pose proof (filter_weight (fun word => (3 <? len word)%Z) words).
    pose proof (splitGaps_weight (toLowerCase message) [] false) as Hw.
    fold (splitWhiteSpace (toLowerCase message)) in Hw. fold words in Hw.
    fold long in H1. change (len []) with 0%Z in Hw. lia.
  - unfold extractSearchTerms. fold words. fold long. split.
    + intros Hempty.
      assert (Hlong : long = []).
      { destruct long as [|p rest] eqn:E; [reflexivity|].
        assert (Hp : In p long) by (rewrite E; now left).
        apply filter_In in Hp. destruct Hp as [_ Hp]. apply Z.ltb_lt in Hp.
        destruct (join_cons_head (lit " ") p (firstn 4 rest)) as [tail Ht].
        change (firstn 5 (p :: rest)) with (p :: firstn 4 rest) in Hempty.
        unfold jsstring in *. rewrite Ht in Hempty.
        destruct p; [unfold len in Hp; simpl in Hp; lia | discriminate]. }
      apply Forall_forall. intros word Hword.
      destruct (3 <? len word)%Z eqn:E; [|now apply Z.ltb_ge].
      assert (Hin : In word long) by (apply filter_In; auto).
      rewrite Hlong in Hin. contradiction.
    + intros Hshort.
      assert (Hlong : long = []).
      { destruct long as [|p rest] eqn:E; [reflexivity|].
        assert (Hp : In p long) by (rewrite E; now left).
        apply filter_In in Hp. destruct Hp as [Hin Hp]. apply Z.ltb_lt in Hp.
        rewrite Forall_forall in Hshort. specialize (Hshort p Hin). lia. }
      now rewrite Hlong.
Qed.

(** X9.  Extracting the search terms of search terms changes nothing,
    provided lower-casing leaves the lower-cased terms as they are:
    splitting at white space gives the joined words back, each is long
    enough to be kept and there are at most five. *)
Theorem extractSearchTerms_idempotent (message : jsstring) :
  toLowerCase (extractSearchTerms message) = extractSearchTerms message ->
  extractSearchTerms (extractSearchTerms message)
  = extractSearchTerms message.
Proof.
  intros Hlower.
  destruct (keywords_facts message) as [Hcount Hwords].
  unfold extractSearchTerms at 1. rewrite Hlower.
  unfold extractSearchTerms.
  set (keywords := firstn 5 _) in *.
  destruct keywords as [|p rest] eqn:E; [reflexivity|].
  rewrite split_join.
  - rewrite <- E in *. f_equal.
    assert (Hkeep : filter (fun word => (3 <? len word)%Z) keywords
                    = keywords).
    { clear E Hcount. induction Hwords as [|word l [Hlen _] _ IH];
        [reflexivity|].
      simpl. apply Z.ltb_lt in Hlen. now rewrite Hlen, IH. }
    rewrite Hkeep. apply firstn_all2. exact Hcount.
  - discriminate.
  - eapply Forall_impl; [|exact Hwords].
    intros word [Hlen Hsolid]. split; [|exact Hsolid].
    intros ->. unfold len in Hlen. simpl in Hlen. lia.
Qed.



End TextExtras.

Module TextExtrasWitness.
Import Script.

Lemma extractSearchTerms_idempotent_witness :
  extractSearchTerms (RT := scripted)
    (extractSearchTerms (RT := scripted) (lit "how do I reset my password"))
  = extractSearchTerms (RT := scripted) (lit "how do I reset my password").
Proof.
  apply (extractSearchTerms_idempotent (RT := scripted)
           (lit "how do I reset my password")).
  reflexivity.
Defined.

(** The terms of that message. *)
Example extractSearchTerms_password :
  extractSearchTerms (RT := scripted) (lit "how do I reset my password")
  = lit "reset password".
Proof. vm_compute. reflexivity. Qed.


End TextExtrasWitness.

(** ** The routes *)

Section RouteExtras.
Context {N : Num} {RT : Runtime}.
Open Scope js_scope.

(** X11.  [GET /test-rag] always answers, and never from its [catch]
    branch: 400 when the query parameter is absent or empty, with the
    service and the world untouched, and otherwise 200 with the query and
    what [getRelevantSections] returned for it with two sections asked
    for.  Failures of the document, the parser and the provider reach the
    client as a 200 whose [relevantContent] is empty. *)
Theorem testRag_answers
  (development : bool) (query : option jsstring)
  (s : RAGService) (w : World) :
  exists response s' w',
    testRag development query s w = (Return response, s', w')
    /\ status response <> 500%nat
    /\ (status response = 400%nat <-> query = None \/ query = Some [])
    /\ (status response = 400%nat ->
        s' = s /\ w' = w
        /\ body response
           = ErrorBody (lit "Query parameter is required") None)
    /\ (forall text, query = Some text -> text <> [] ->
        exists relevantContent,
          getRelevantSections text 2 s w = (Return relevantContent, s', w')
          /\ response
             = {| status := 200;
                  body := TestBody text relevantContent
                            (lit "RAG system test completed successfully") |}).
Proof.
  unfold testRag, tryCatch.
  destruct query as [[|unit units]|].
  - eexists; eexists; eexists. split; [reflexivity|]. cbn [status body].
    split; [discriminate|]. split; [split; auto|]. split; [auto|].
    intros text Htext Hne. injection Htext as <-. contradiction.
  - destruct (getRelevantSections_run (unit :: units) 2 s w)
      as (text & s' & w' & Hrun & _).
    rewrite (bind_Return _ _ _ _ _ _ _ Hrun). unfold ret.
    eexists; eexists; eexists. split; [reflexivity|]. cbn [status body].
    split; [discriminate|]. split; [|split].
    + split; [discriminate | intros [H|H]; discriminate H].
    + discriminate.
    + intros text' Htext _. injection Htext as <-. eauto.
  - eexists; eexists; eexists. split; [reflexivity|]. cbn [status body].
    split; [discriminate|]. split; [split; auto|]. split; [auto|].
    intros text Htext. discriminate Htext.
Qed.

(** X12.  [POST /refresh-rag] always answers.  A 200 means the refresh
    returned: every chunk of the document has its embedding and the
    service is initialized.  A 500 means it threw: the service is left
    uninitialized, holding nothing or fewer embeddings than chunks, and
    the error message is in [details] only in development. *)
Theorem refreshRag_answers
  (development : bool) (s : RAGService) (w : World) :
  exists response s' w',
    refreshRag development s w = (Return response, s', w')
    /\ ((response
         = {| status := 200;
              body := MessageBody (lit "RAG system refreshed successfully") |}
         /\ refreshVectorStore s w = (Return tt, s', w')
         /\ fullyBuilt s' /\ isInitialized s' = true)
        \/ (exists e,
              response
              = {| status := 500;
                   body := ErrorBody (lit "Failed to refresh RAG system")
                             (if development then Some e else None) |}
              /\ refreshVectorStore s w = (Throw e, s', w')
              /\ isInitialized s' = false
              /\ ((documentChunks s' = [] /\ chunkEmbeddings s' = [])
                  \/ (length (chunkEmbeddings s')
                      < length (documentChunks s'))%nat))).
Proof.
  unfold refreshRag, tryCatch.
  destruct (refreshVectorStore_facts s w)
    as (o & s' & w' & Hrun & Hnd & _ & Hret & Hthrow).
  destruct o as [[]|e|]; [| |contradiction].
  - rewrite (bind_Return _ _ _ _ _ _ _ Hrun). unfold ret.
    eexists; eexists; eexists. split; [reflexivity|]. left.
    destruct (Hret tt eq_refl) as [Hbuilt Hinit]. auto.
  - rewrite (bind_Throw _ _ _ _ _ _ _ Hrun). unfold ret.
    eexists; eexists; eexists. split; [reflexivity|]. right.
    exists e. destruct (Hthrow e eq_refl) as [Hinit Hshape]. auto.
Qed.

End RouteExtras.

Module RouteExtrasWitness.
Import Script.

(** A test query while the provider refuses: 200 and no content. *)
Lemma testRag_answers_witness :
  exists response s' w',
    testRag (RT := scripted) false (Some (lit "password reset"))
      serving refusing
    = (Return response, s', w')
    /\ status response <> 500%nat
    /\ (status response = 400%nat
        <-> Some (lit "password reset") = None
            \/ Some (lit "password reset") = Some [])
    /\ (status response = 400%nat ->
        s' = serving /\ w' = refusing
        /\ body response
           = ErrorBody (lit "Query parameter is required") None)
    /\ (forall text, Some (lit "password reset") = Some text -> text <> [] ->
        exists relevantContent,
          getRelevantSections (RT := scripted) text 2 serving refusing
          = (Return relevantContent, s', w')
          /\ response
             = {| status := 200;
                  body := TestBody text relevantContent
                            (lit "RAG system test completed successfully") |}).
Proof.
  exact (testRag_answers (RT := scripted) false
           (Some (lit "password reset")) serving refusing).
Defined.

Example testRag_refusing :
  testRag (RT := scripted) false (Some (lit "password reset"))
    serving refusing
  = (Return {| status := 200;
               body := TestBody (lit "password reset") []
                         (lit "RAG system test completed successfully") |},
     serving, refusing).
Proof. vm_compute. reflexivity. Qed.

End RouteExtrasWitness.

(** ** Similarity in exact arithmetic *)

Module RealExtras.
Import NumberFacts.
Local Open Scope R_scope.






End RealExtras.

(** ** The face verification service *)

Module FaceFacts.
Import Face DoubleOrder.

(** On areas none of which is NaN, [<] is transitive. *)
Lemma ltb_trans (x y z : float) :
  notNaN x -> notNaN y -> notNaN z ->
  (x <? y)%float = true -> (y <? z)%float = true -> (x <? z)%float = true.
Proof.
  intros Hx Hy Hz Hxy Hyz.
  destruct (x <? z)%float eqn:E; [reflexivity|].
  pose proof (Float64_ltb_asym _ _ Hyz) as Hzy.
  rewrite (Float64_ltb_negative_transitive x z y Hx Hz Hy E Hzy) in Hxy.
  discriminate Hxy.
Qed.

Lemma ltb_after (x y z : float) :
  notNaN x -> notNaN y -> notNaN z ->
  (x <? y)%float = false -> (x <? z)%float = true -> (y <? z)%float = true.
Proof.
  intros Hx Hy Hz Hxy Hxz.
  destruct (y <? z)%float eqn:E; [reflexivity|].
  rewrite (Float64_ltb_negative_transitive x y z Hx Hy Hz Hxy E) in Hxz.
  discriminate Hxz.
Qed.

Lemma largestFace_invariant (rest : list WithFaceDescriptor) :
  forall (before : list WithFaceDescriptor) (prev : WithFaceDescriptor)
         (mid : list WithFaceDescriptor),
    Forall (fun f => notNaN (area f)) (before ++ prev :: mid ++ rest) ->
    firstLargest before prev mid ->
    exists before' after',
      before ++ prev :: mid ++ rest
      = before' ++ fold_left largerFace rest prev :: after'
      /\ firstLargest before' (fold_left largerFace rest prev) after'.
Proof.
  induction rest as [|current rest IH]; intros before prev mid Hnan [Hb Hm].
  - exists before, mid. rewrite app_nil_r. now split.
  - cbn [fold_left].
    assert (Hstep : largerFace prev current
                    = if (area prev <? area current)%float
                      then current else prev) by reflexivity.
    assert (Hall : forall f, In f (before ++ prev :: mid ++ current :: rest) ->
                             notNaN (area f))
      by (now apply Forall_forall).
    assert (Hprev : notNaN (area prev))
      by (apply Hall, in_or_app; right; now left).
    assert (Hcur : notNaN (area current)).
    { apply Hall, in_or_app. right. right. apply in_or_app. right. now left. }
    destruct (area prev <? area current)%float eqn:E; rewrite Hstep.
    + destruct (IH (before ++ prev :: mid) current []) as (b' & a' & Heq & Hfl).
      * rewrite <- app_assoc. exact Hnan.
      * split; [|constructor].
        apply Forall_app. split; [|constructor].
        -- rewrite Forall_forall in Hb |- *. intros f Hf.
           apply (ltb_trans _ (area prev)); auto.
           apply Hall, in_or_app. now left.
        -- exact E.
        -- rewrite Forall_forall in Hm |- *. intros f Hf.
           apply (ltb_after (area prev)); auto.
           apply Hall, in_or_app. right. right. apply in_or_app. now left.
      * exists b', a'. split; [|exact Hfl].
        rewrite <- Heq. now rewrite <- !app_assoc.
    + destruct (IH before prev (mid ++ [current])) as (b' & a' & Heq & Hfl).
      * now rewrite <- app_assoc.
      * split; [exact Hb|]. apply Forall_app. split; [exact Hm|].
        constructor; [exact E | constructor].
      * exists b', a'. split; [|exact Hfl].
        rewrite <- Heq. now rewrite <- !app_assoc.
Qed.

Lemma fold_largerFace_member (l : list WithFaceDescriptor) :
  forall (prev : WithFaceDescriptor) (known : list WithFaceDescriptor),
    In prev known -> incl l known ->
    In (fold_left largerFace l prev) known.
Proof.
  induction l as [|c l IH]; intros prev known Hp Hl; [exact Hp|].
  cbn [fold_left]. apply IH.
  - unfold largerFace. destruct (_ <? _)%float; [|exact Hp].
    apply Hl. now left.
  - intros x Hx. apply Hl. now right.
Qed.

Lemma largestFace_member (first : WithFaceDescriptor)
  (rest : list WithFaceDescriptor) :
  In (largestFace first rest) (first :: rest).
Proof.
  apply fold_largerFace_member; [now left | intros x Hx; now right].
Qed.

End FaceFacts.

Section FaceExtras.
Import Face FaceFacts.
Context {RT : Face.Runtime}.
Variable this : FaceVerificationService.

(** X15.  [getFaceDescriptor] takes the descriptor of the first face of
    the largest box: when the image loads, the detector finds faces and
    no area [width * height] is NaN, the face chosen is one of the
    detections, every face before it has a strictly smaller area and no
    face after it a larger one.  Its descriptor is returned; a face
    without one is an error. *)
Theorem getFaceDescriptor_first_largest
  (buffer : Buffer) (w w1 w2 : World) (img : Image)
  (detections : list WithFaceDescriptor) :
  loadImage buffer w = (inr img, w1) ->
  detectAllFaces img w1 = (inr detections, w2) ->
  detections <> [] ->
  Forall (fun f => notNaN (area f)) detections ->
  exists before best after,
    detections = before ++ best :: after
    /\ Forall (fun f => (area f <? area best)%float = true) before
    /\ Forall (fun f => (area best <? area f)%float = false) after
    /\ getFaceDescriptor (IsBuffer buffer) w
       = (match descriptor best with
          | Some values => Return values
          | None =>
              Throw "Failed to process face image: Failed to extract face features"%string
          end, w2).
Proof.
  intros Hload Hdetect Hne Hnan.
  destruct detections as [|first rest]; [contradiction|].
  destruct (largestFace_invariant rest [] first [] Hnan)
    as (before & after & Heq & Hb & Ha).
  { split; constructor. }
  exists before, (largestFace first rest), after.
  split; [exact Heq|]. split; [exact Hb|]. split; [exact Ha|].
  unfold getFaceDescriptor, tryCatch, bind, await.
  rewrite Hload, Hdetect.
  destruct (descriptor (largestFace first rest)); reflexivity.
Qed.

(** X16.  [getFaceDescriptor] returns only the descriptor of a face the
    detector found in an image that loaded from a [Buffer].  Everything
    else is an error whose message starts with
    "Failed to process face image: "; an argument that is not a [Buffer]
    is refused before anything outside the module is called, and so is an
    image with no face once the detector has answered. *)
Theorem getFaceDescriptor_outcome
  (imageBuffer : BufferArg Buffer) (w : World) :
  exists o w',
    getFaceDescriptor imageBuffer w = (o, w')
    /\ match o with
       | Return values =>
           exists buffer img w1 detections found,
             imageBuffer = IsBuffer buffer
             /\ loadImage buffer w = (inr img, w1)
             /\ detectAllFaces img w1 = (inr detections, w')
             /\ In found detections
             /\ descriptor found = Some values
       | Throw e =>
           (exists cause,
              e = String.append "Failed to process face image: " cause)
           /\ ((forall buffer, imageBuffer <> IsBuffer buffer) ->
               e = "Failed to process face image: Invalid image buffer"%string
               /\ w' = w)
           /\ (forall buffer img w1,
                 imageBuffer = IsBuffer buffer ->
                 loadImage buffer w = (inr img, w1) ->
                 detectAllFaces img w1 = (inr [], w') ->
                 e = "Failed to process face image: No face detected in the image"%string)
       | Diverge => False
       end.
Proof.
  unfold getFaceDescriptor, tryCatch, bind, await, throw, wrapped.
  destruct imageBuffer as [| |buffer].
  - eexists; eexists. split; [reflexivity|]. cbn beta iota.
    split; [eauto|]. split; [auto|]. intros ? ? ? H. discriminate H.
  - eexists; eexists. split; [reflexivity|]. cbn beta iota.
    split; [eauto|]. split; [auto|]. intros ? ? ? H. discriminate H.
  - destruct (loadImage buffer w) as [[e|img] w1] eqn:Hload.
    { eexists; eexists. split; [reflexivity|]. cbn beta iota.
      split; [eauto|]. split.
      - intros H. now destruct (H buffer).
      - intros b i w0 Hb Hl. injection Hb as <-. rewrite Hload in Hl.
        discriminate Hl. }
    destruct (detectAllFaces img w1) as [[e|detections] w2] eqn:Hdetect.
    { eexists; eexists. split; [reflexivity|]. cbn beta iota.
      split; [eauto|]. split.
      - intros H. now destruct (H buffer).
      - intros b i w0 Hb Hl. injection Hb as <-. rewrite Hload in Hl.
        injection Hl as <- <-. rewrite Hdetect. intros Hd.
        discriminate Hd. }
    destruct detections as [|first rest].
    { eexists; eexists. split; [reflexivity|]. cbn beta iota.
      split; [eauto|]. split.
      - intros H. now destruct (H buffer).
      - reflexivity. }
    pose proof (largestFace_member first rest) as Hmember.
    destruct (descriptor (largestFace first rest)) as [values|] eqn:Hdesc.
    + eexists; eexists. split; [reflexivity|]. cbn beta iota.
      exists buffer, img, w1, (first :: rest), (largestFace first rest).
      auto.
    + eexists; eexists. split; [reflexivity|]. cbn beta iota.
      split; [eauto|]. split.
      * intros H. now destruct (H buffer).
      * intros b i w0 Hb Hl. injection Hb as <-. rewrite Hload in Hl.
        injection Hl as <- <-. rewrite Hdetect. intros Hd.
        discriminate Hd.
Qed.

End FaceExtras.

Section FaceVerifyFacts.
Import Face.
Context {RT : Face.Runtime}.
Variable this : FaceVerificationService.

Lemma getFaceDescriptor_completes (imageBuffer : BufferArg Buffer) (w : World) :
  fst (getFaceDescriptor imageBuffer w) <> Diverge.
Proof.
  unfold getFaceDescriptor, tryCatch, bind, await, throw, wrapped, ret.
  destruct imageBuffer as [| |buffer]; try discriminate.
  destruct (loadImage buffer w) as [[e|img] w1]; [discriminate|].
  destruct (detectAllFaces img w1) as [[e|[|first rest]] w2];
    try discriminate.
  destruct (descriptor (largestFace first rest)); discriminate.
Qed.

Lemma getFaceDescriptor_throws (imageBuffer : BufferArg Buffer)
  (w : World) (e : JsError) (w' : World) :
  getFaceDescriptor imageBuffer w = (Throw e, w') ->
  exists cause, e = String.append "Failed to process face image: " cause.
Proof.
  unfold getFaceDescriptor, tryCatch.
  match goal with
  | |- (match ?b with _ => _ end) = _ -> _ =>
      destruct b as [[values|cause|] w1]
  end; [discriminate | | discriminate].
  unfold wrapped, throw. intros H. injection H as <- _.
  exists cause. reflexivity.
Qed.

(** [compareFaces] on two arrays: the lengths are compared before the
    distance is asked for, and the world is not touched. *)
Lemma compareFaces_arrays (d1 d2 : list float) (w : World) :
  compareFaces (Some d1) (Some d2) w
  = (if negb (length d1 =? length d2)%nat
     then Throw "Failed to compare faces: Face descriptors have different lengths"%string
     else match euclideanDistance d1 d2 with
          | inl e => Throw (String.append "Failed to compare faces: " e)
          | inr distance => Return (distance <=? MATCH_THRESHOLD)%float
          end,
     w).
Proof.
  unfold compareFaces, tryCatch, bind, call, throw, wrapped, ret.
  destruct (negb (length d1 =? length d2)%nat); [reflexivity|].
  destruct (euclideanDistance d1 d2); reflexivity.
Qed.

End FaceVerifyFacts.

Section FaceVerifyExtras.
Import Face.
Context {RT : Face.Runtime}.
Variable this : FaceVerificationService.

(** X17.  [verifyFace] returns or throws, and every error it throws
    starts with "Failed to verify face: ".  It returns only when the user
    id and the new image are there, the stored image of the user exists
    and is read, a face descriptor is extracted from the stored image and
    then from the new one, the two descriptors have one length and the
    distance is computed; the answer is then whether the distance is at
    most 0.6. *)
Theorem verifyFace_outcome
  (userId : UserId) (newFaceBuffer : BufferArg Buffer) (w : World) :
  let storedFacePath :=
    pathJoin (uploadDir this) (toString userId ++ lit "-face.jpg") in
  exists o w',
    verifyFace this userId newFaceBuffer w = (o, w')
    /\ match o with
       | Return isMatch =>
           missingId userId = false
           /\ missingBuffer newFaceBuffer = false
           /\ exists w1 storedFaceBuffer w2 storedDescriptor w3
                     newDescriptor distance,
                access storedFacePath w = (inr tt, w1)
                /\ readFile storedFacePath w1 = (inr storedFaceBuffer, w2)
                /\ getFaceDescriptor (IsBuffer storedFaceBuffer) w2
                   = (Return storedDescriptor, w3)
                /\ getFaceDescriptor newFaceBuffer w3
                   = (Return newDescriptor, w')
                /\ length storedDescriptor = length newDescriptor
                /\ euclideanDistance storedDescriptor newDescriptor
                   = inr distance
                /\ isMatch = (distance <=? MATCH_THRESHOLD)%float
       | Throw e =>
           exists cause, e = String.append "Failed to verify face: " cause
       | Diverge => False
       end.
Proof.
  intros storedFacePath. unfold verifyFace. fold storedFacePath.
  unfold tryCatch at 1.
  destruct (missingId userId) eqn:Hid;
    [eexists; eexists; split; [reflexivity|]; cbn; eauto|].
  destruct (missingBuffer newFaceBuffer) eqn:Hbuf;
    [eexists; eexists; split; [reflexivity|]; cbn; eauto|].
  cbn [orb]. unfold bind at 1, tryCatch, await at 1.
  destruct (access storedFacePath w) as [[e|[]] w1] eqn:Haccess;
    [eexists; eexists; split; [reflexivity|]; cbn; eauto|].
  unfold bind at 1, await.
  destruct (readFile storedFacePath w1) as [[e|storedFaceBuffer] w2] eqn:Hread;
    [eexists; eexists; split; [reflexivity|]; cbn; eauto|].
  unfold bind at 1.
  pose proof (getFaceDescriptor_completes (IsBuffer storedFaceBuffer) w2)
    as Hstored.
  destruct (getFaceDescriptor (IsBuffer storedFaceBuffer) w2)
    as [[storedDescriptor|e|] w3] eqn:Hs;
    [|eexists; eexists; split; [reflexivity|]; cbn; eauto
     |now contradiction Hstored].
  unfold bind at 1.
  pose proof (getFaceDescriptor_completes newFaceBuffer w3) as Hnew.
  destruct (getFaceDescriptor newFaceBuffer w3)
    as [[newDescriptor|e|] w4] eqn:Hn;
    [|eexists; eexists; split; [reflexivity|]; cbn; eauto
     |now contradiction Hnew].
  unfold bind at 1. rewrite compareFaces_arrays.
  destruct (length storedDescriptor =? length newDescriptor)%nat eqn:Hlen;
    cbn [negb];
    [|eexists; eexists; split; [reflexivity|]; cbn; eauto].
  apply Nat.eqb_eq in Hlen.
  destruct (euclideanDistance storedDescriptor newDescriptor)
    as [e|distance] eqn:Hdist;
    [eexists; eexists; split; [reflexivity|]; cbn; eauto|].
  eexists; eexists. split; [reflexivity|]. cbn beta iota.
  split; [reflexivity|]. split; [reflexivity|].
  exists w1, storedFaceBuffer, w2, storedDescriptor, w3, newDescriptor,
    distance.
  repeat split; assumption.
Qed.

(** X18.  What [verifyFace] refuses, and how.  A missing user id or a
    missing new image is refused before anything outside the module is
    called.  Whatever makes [fs.access] fail on the stored image, the
    error says that no face image was found for the user, and the file
    is not read.  A failure of [getFaceDescriptor] on the stored image
    reaches the caller under both prefixes, and the new image is not
    looked at. *)
Theorem verifyFace_refusals
  (userId : UserId) (newFaceBuffer : BufferArg Buffer) (w : World) :
  let storedFacePath :=
    pathJoin (uploadDir this) (toString userId ++ lit "-face.jpg") in
  (missingId userId = true \/ missingBuffer newFaceBuffer = true ->
   verifyFace this userId newFaceBuffer w
   = (Throw "Failed to verify face: Missing required parameters"%string, w))
  /\ (missingId userId = false -> missingBuffer newFaceBuffer = false ->
      (forall e w1,
         access storedFacePath w = (inl e, w1) ->
         verifyFace this userId newFaceBuffer w
         = (Throw "Failed to verify face: No face image found for this user"%string,
            w1))
      /\ (forall w1 storedFaceBuffer w2 e w3,
            access storedFacePath w = (inr tt, w1) ->
            readFile storedFacePath w1 = (inr storedFaceBuffer, w2) ->
            getFaceDescriptor (IsBuffer storedFaceBuffer) w2
            = (Throw e, w3) ->
            (exists cause,
               e = String.append "Failed to process face image: " cause
               /\ verifyFace this userId newFaceBuffer w
                  = (Throw (String.append "Failed to verify face: "
                              (String.append "Failed to process face image: "
                                 cause)), w3)))).
Proof.
  intros storedFacePath. split.
  - intros Hmissing. unfold verifyFace, tryCatch.
    assert (E : missingId userId || missingBuffer newFaceBuffer = true)
      by (destruct Hmissing as [-> | ->];
          [reflexivity | apply orb_true_r]).
    now rewrite E.
  - intros Hid Hbuf. unfold verifyFace. fold storedFacePath.
    rewrite Hid, Hbuf. cbn [orb]. split.
    + intros e w1 Haccess.
      unfold tryCatch, bind, await. now rewrite Haccess.
    + intros w1 storedFaceBuffer w2 e w3 Haccess Hread Hstored.
      pose proof (getFaceDescriptor_throws _ _ _ _ Hstored) as Hcause.
      destruct Hcause as [cause ->]. exists cause. split; [reflexivity|].
      unfold tryCatch at 1. unfold bind at 1, tryCatch, await at 1.
      rewrite Haccess. unfold bind at 1, await. rewrite Hread.
      unfold bind at 1. now rewrite Hstored.
Qed.

End FaceVerifyExtras.

Module FaceWitness.
Import Face FaceScript.

Example saveFaceImage_alice :
  saveFaceImage (RT := scriptedFaces) service alice (IsBuffer portrait) []
  = (Return (lit "uploads/faces/alice-face.jpg"), saved).
Proof. vm_compute. reflexivity. Qed.

(** The large face of the portrait is its second face, and the selfie
    is at distance 0.5 from it. *)
Example verifyFace_alice :
  verifyFace (RT := scriptedFaces) service alice (IsBuffer selfie) saved = (Return true, saved).
Proof. vm_compute. reflexivity. Qed.

Lemma getFaceDescriptor_first_largest_witness :
  exists before best after,
    portrait = before ++ best :: after
    /\ Forall (fun f => (area f <? area best)%float = true) before
    /\ Forall (fun f => (area best <? area f)%float = false) after
    /\ getFaceDescriptor (RT := scriptedFaces) (IsBuffer portrait) saved
       = (match descriptor best with
          | Some values => Return values
          | None =>
              Throw "Failed to process face image: Failed to extract face features"%string
          end, saved).
Proof.
  apply (getFaceDescriptor_first_largest (RT := scriptedFaces) portrait saved saved saved portrait
           portrait);
    [reflexivity | reflexivity | discriminate | repeat constructor].
Defined.

Lemma verifyFace_refusals_witness :
  verifyFace (RT := scriptedFaces) service alice (IsBuffer selfie) []
  = (Throw "Failed to verify face: No face image found for this user"%string,
     []).
Proof.
  apply (verifyFace_refusals (RT := scriptedFaces) service alice (IsBuffer selfie) [])
    with (e := "ENOENT: no such file or directory"%string);
    reflexivity.
Defined.

End FaceWitness.

(** ** The size of the index *)

Module ChunkCount.
Import Chunker ChunkerFacts.
Local Open Scope Z_scope.

(** With the parameters of the service a pass that is not the last one
    moves [start] forward by more than 500 units. *)
Lemma splitStep_service_stride (text : jsstring) (start : Z) :
  0 <= start < len text ->
  let start' := snd (splitStep text 1000 200 start) in
  start' = len text \/ start + 501 <= start'.
Proof.
  intros Hs. unfold splitStep, beyondThreshold.
  destruct (Z.min (start + 1000) (len text) <? len text) eqn:E.
  - apply Z.ltb_lt in E.
    match goal with |- context [if ?b then _ else _] => destruct b eqn:T end;
      cbn [snd]; [apply Z.ltb_lt in T|]; lia.
  - apply Z.ltb_ge in E. cbn [snd]. lia.
Qed.

Lemma pushChunk_length (chunks : list jsstring) (chunk : jsstring) :
  (length (pushChunk chunks chunk) <= S (length chunks))%nat.
Proof.
  unfold pushChunk. destruct (50 <? len (trim chunk)); [|lia].
  rewrite length_app. simpl. lia.
Qed.

Lemma splitLoop_service_count (text : jsstring) (fuel : nat) :
  forall (start : Z) (chunks result : list jsstring),
    0 <= start ->
    splitLoop fuel text 1000 200 start chunks = Some result ->
    Z.of_nat (length result)
    <= Z.of_nat (length chunks) + Z.max 0 ((len text - start + 500) / 501).
Proof.
  induction fuel as [|fuel IH]; intros start chunks result H0;
    cbn [splitLoop]; [discriminate|].
  destruct (start <? len text) eqn:E.
  - apply Z.ltb_lt in E.
    pose proof (splitStep_service_stride text start (conj H0 E)) as Hstride.
    destruct (splitStep text 1000 200 start) as [chunk start'].
    cbn [snd] in Hstride. intros Hrun.
    apply IH in Hrun; [|lia].
    pose proof (pushChunk_length chunks chunk) as Hpush.
    assert (Hpasses : Z.max 0 ((len text - start' + 500) / 501) + 1
                      <= Z.max 0 ((len text - start + 500) / 501)).
    { destruct Hstride as [-> | Hfar].
      - replace (len text - len text + 500) with 500 by lia.
        change (500 / 501) with 0.
        assert (1 <= (len text - start + 500) / 501)
          by (apply Z.div_le_lower_bound; lia).
        lia.
      - assert ((len text - start' + 500) / 501 + 1
                <= (len text - start + 500) / 501).
        { replace ((len text - start' + 500) / 501 + 1)
            with ((len text - start' + 500 + 1 * 501) / 501)
            by (rewrite Z.div_add by lia; reflexivity).
          apply Z.div_le_mono; lia. }
        assert (1 <= (len text - start + 500) / 501)
          by (apply Z.div_le_lower_bound; lia).
        lia. }
    lia.
  - intros H. injection H as <-.
    lia.
Qed.

(** X19.  [splitIntoChunks(text, 1000, 200)], the call
    [loadAndProcessPDF] makes, returns at most one chunk for every 501
    units of the text, rounded up: so many embeddings a rebuild of the
    index asks the provider for, at most. *)
Theorem splitIntoChunks_service_count
  (fuel : nat) (text : jsstring) (chunks : list jsstring) :
  splitIntoChunks fuel text 1000 200 = Some chunks ->
  Z.of_nat (length chunks) <= (len text + 500) / 501.
Proof.
  intros Hrun.
  apply (splitLoop_service_count text fuel 0 [] chunks ltac:(lia)) in Hrun.
  assert (0 <= (len text + 500) / 501)
    by (apply Z.div_pos; [pose proof (len_nonneg text)|]; lia).
  cbn [length] in Hrun. rewrite Z.sub_0_r in Hrun. lia.
Qed.

Lemma splitIntoChunks_service_count_witness :
  Z.of_nat (length [repeat 97%N 1000; repeat 97%N 700])
  <= (len Script.longText + 500) / 501.
Proof.
  apply (splitIntoChunks_service_count 3 Script.longText).
  vm_compute. reflexivity.
Defined.

End ChunkCount.

(** ** The magnitude of an embedding *)

Module RealScale.
Import NumberFacts RealExtras.
Local Open Scope R_scope.





End RealScale.

(** ** The first query *)

Section FirstQuery.
Context {N : Num} {RT : Runtime}.
Open Scope js_scope.

Hypothesis provider_answers :
  forall text w, exists v w', embedContent text w = (inr v, w').

Lemma embedFrom_returns (rest : list jsstring) :
  forall (i : nat) (s : RAGService) (w : World),
    embeddings s <> None ->
    exists s' w', embedFrom i rest s w = (Return tt, s', w').
Proof.
  induction rest as [|c rest IH]; intros i s w Hmodel; cbn [embedFrom].
  - unfold ret. eauto.
  - destruct (provider_answers c w) as (v & w1 & Hembed).
    assert (Hget : getEmbedding c s w = (Return v, s, w1)).
    { unfold getEmbedding. rewrite tryCatch_rethrow.
      unfold bind, gets, await.
      destruct (embeddings s); [now rewrite Hembed | contradiction]. }
    rewrite (bind_Return _ _ _ _ _ _ _ Hget).
    unfold bind at 1, assign at 1. apply IH. exact Hmodel.
Qed.

Lemma initialize_returns (s : RAGService) (w : World)
  (pdfBuffer : Buffer) (w1 : World) (fullText : jsstring) (w2 : World) :
  readFile w = (inr pdfBuffer, w1) ->
  pdfParse pdfBuffer w1 = (inr fullText, w2) ->
  exists chunks s' w',
    Chunker.splitIntoChunks (S (length fullText)) fullText 1000 200
    = Some chunks
    /\ initialize s w = (Return tt, s', w')
    /\ documentChunks s' = chunks.
Proof.
  intros Hread Hparse.
  destruct (ChunkerFacts.splitIntoChunks_service_returns fullText)
    as [chunks Hsplit].
  exists chunks.
  unfold initialize. rewrite tryCatch_rethrow.
  unfold bind at 1, assign at 1. unfold bind at 1.
  unfold loadAndProcessPDF. rewrite tryCatch_rethrow.
  unfold bind at 1, await at 1. rewrite Hread.
  unfold bind at 1, await at 1. rewrite Hparse.
  unfold bind at 1, splitDocument. rewrite Hsplit. unfold ret at 1.
  unfold bind at 1, assign at 1.
  unfold generateChunkEmbeddings. rewrite tryCatch_rethrow.
  unfold bind at 1, assign at 1. unfold bind at 1, gets at 1.
  cbn [documentChunks setDocumentChunks setChunkEmbeddings].
  destruct (embedFrom_returns chunks 0
              (setChunkEmbeddings []
                 (setDocumentChunks chunks
                    (setEmbeddings (Some Embedding001) s))) w2
              ltac:(discriminate)) as (s' & w' & Hrun).
  pose proof (embedFrom_run chunks 0
                (setChunkEmbeddings []
                   (setDocumentChunks chunks
                      (setEmbeddings (Some Embedding001) s))) w2)
    as (o & added & w'' & Hrun' & _).
  rewrite Hrun in Hrun'. injection Hrun' as <- -> <-.
  rewrite Hrun. unfold assign.
  eexists; eexists. split; [exact eq_refl|]. split; reflexivity.
Qed.

(** X21.  The first query builds the index.  When the document is read
    and parsed and the provider answers every request, a call of
    [getRelevantSections] on a service that is not initialized returns
    with the service initialized, its chunks those of
    [splitIntoChunks(text, 1000, 200)] and every chunk embedded: a later
    query finds the index and does not read the file again. *)
Theorem first_query_builds_index
  (userMessage : jsstring) (maxChunks : Z) (s : RAGService) (w : World)
  (pdfBuffer : Buffer) (w1 : World) (fullText : jsstring) (w2 : World) :
  isInitialized s = false ->
  readFile w = (inr pdfBuffer, w1) ->
  pdfParse pdfBuffer w1 = (inr fullText, w2) ->
  exists answer s' w',
    getRelevantSections userMessage maxChunks s w = (Return answer, s', w')
    /\ isInitialized s' = true
    /\ fullyBuilt s'
    /\ Chunker.splitIntoChunks (S (length fullText)) fullText 1000 200
       = Some (documentChunks s').
Proof.
  intros Hcold Hread Hparse.
  destruct (initialize_returns s w pdfBuffer w1 fullText w2 Hread Hparse)
    as (chunks & s1 & w3 & Hsplit & Hinit & Hchunks).
  destruct (initialize_facts s w) as (o & s2 & w4 & Hrun & _ & _ & Hret).
  rewrite Hinit in Hrun. injection Hrun as <- <- <-.
  destruct (Hret tt eq_refl) as [Hbuilt Hready].
  assert (Hens : ensureInitialized s w = (Return tt, s1, w3)).
  { unfold ensureInitialized, bind, gets. now rewrite Hcold. }
  assert (Hens1 : ensureInitialized s1 w3 = (Return tt, s1, w3)).
  { unfold ensureInitialized, bind, gets. now rewrite Hready. }
  destruct (searchRelevantContext_run (extractSearchTerms userMessage)
              maxChunks s1 w3) as (answer & s' & w' & Hsearch & o1 & w5 & Hsame).
  rewrite Hens1 in Hsame. injection Hsame as _ <- _.
  exists answer, s1, w'.
  split; [|split; [exact Hready | split; [exact Hbuilt | now rewrite Hchunks]]].
  unfold getRelevantSections, tryCatch.
  rewrite (bind_Return _ _ _ _ _ _ _ Hens).
  now rewrite (bind_Return _ _ _ _ _ _ _ Hsearch).
Qed.

End FirstQuery.

Module FirstQueryWitness.
Import Script.

Lemma first_query_builds_index_witness :
  exists answer s' w',
    getRelevantSections (RT := generous) (lit "password reset") 3
      constructed {| document := Some shortText; quota := 0 |}
    = (Return answer, s', w')
    /\ isInitialized s' = true
    /\ fullyBuilt s'
    /\ Chunker.splitIntoChunks (S (length shortText)) shortText 1000 200
       = Some (documentChunks s').
Proof.
  apply (first_query_builds_index (RT := generous)
           ltac:(intros text w; exists [1%float; 0%float], w; reflexivity)
           (lit "password reset") 3 constructed
           {| document := Some shortText; quota := 0 |}
           shortText {| document := Some shortText; quota := 0 |}
           shortText {| document := Some shortText; quota := 0 |});
    reflexivity.
Defined.

End FirstQueryWitness.

Module FaceOrder.

(** A double that is at most another one is not NaN. *)
Lemma leb_notNaN (x y : float) : (x <=? y)%float = true -> notNaN x.
Proof.
  unfold notNaN. rewrite leb_spec, eqb_spec.
  destruct (Prim2SF x) as [s|s| |s m e]; try reflexivity.
  - destruct s; reflexivity.
  - discriminate.
  - intros _. unfold SFeqb, SFcompare.
    destruct s; rewrite Z.compare_refl, Pos.compare_cont_refl; reflexivity.
Qed.

End FaceOrder.

Section FaceCompareExtras.
Import Face.
Context {RT : Face.Runtime}.
Variable this : FaceVerificationService.

(** X22.  [compareFaces] never touches the world and returns or throws.
    It returns only for two descriptors that are there and of one length
    whose distance is computed, and then tells whether the distance is at
    most 0.6; a match is never reported for a distance that is NaN.
    Every error starts with "Failed to compare faces: ": a missing
    descriptor and descriptors of different lengths have their own
    message, the second raised before the distance is asked for. *)
Theorem compareFaces_outcome
  (descriptor1 descriptor2 : option (list float)) (w : World) :
  exists o,
    compareFaces descriptor1 descriptor2 w = (o, w)
    /\ match o with
       | Return isMatch =>
           exists d1 d2 distance,
             descriptor1 = Some d1 /\ descriptor2 = Some d2
             /\ length d1 = length d2
             /\ euclideanDistance d1 d2 = inr distance
             /\ isMatch = (distance <=? MATCH_THRESHOLD)%float
             /\ (isMatch = true -> notNaN distance)
       | Throw e =>
           (exists cause,
              e = String.append "Failed to compare faces: " cause)
           /\ (descriptor1 = None \/ descriptor2 = None ->
               e = "Failed to compare faces: Missing face descriptors"%string)
           /\ (forall d1 d2,
                 descriptor1 = Some d1 -> descriptor2 = Some d2 ->
                 length d1 <> length d2 ->
                 e = "Failed to compare faces: Face descriptors have different lengths"%string)
       | Diverge => False
       end.
Proof.
  destruct descriptor1 as [d1|], descriptor2 as [d2|];
    try (eexists; split; [reflexivity|]; cbn beta iota;
         split; [eexists; reflexivity|]; split; [reflexivity|];
         intros a b Ha Hb; discriminate).
  rewrite compareFaces_arrays.
  destruct (length d1 =? length d2)%nat eqn:Hlen; cbn [negb].
  - apply Nat.eqb_eq in Hlen.
    destruct (euclideanDistance d1 d2) as [e|distance] eqn:Hdist.
    + eexists. split; [reflexivity|]. cbn beta iota.
      split; [eexists; reflexivity|]. split.
      * intros [H|H]; discriminate H.
      * intros a b Ha Hb Hne. injection Ha as <-. injection Hb as <-.
        contradiction.
    + eexists. split; [reflexivity|]. cbn beta iota.
      exists d1, d2, distance. repeat split; try assumption.
      apply FaceOrder.leb_notNaN.
  - eexists. split; [reflexivity|]. cbn beta iota.
    split; [eexists; reflexivity|]. split.
    + intros [H|H]; discriminate H.
    + reflexivity.
Qed.

(** X23.  [verifyFace] looks for the stored image where [saveFaceImage]
    put it, and compares against it.  After a [saveFaceImage] of a user
    that returned, when the file system then grants access to the path
    it returned and reads the saved buffer back, and a descriptor is
    extracted from the saved image and from the new one, of one length
    and at a distance that is computed, [verifyFace] for that user
    returns whether the distance is at most 0.6. *)
Theorem verifyFace_after_save
  (userId : UserId) (imageBuffer : Buffer)
  (newFaceBuffer : BufferArg Buffer)
  (w : World) (filepath : jsstring) (w1 w2 w3 w4 w5 : World)
  (storedDescriptor newDescriptor : list float) (distance : float) :
  missingId userId = false ->
  missingBuffer newFaceBuffer = false ->
  saveFaceImage this userId (IsBuffer imageBuffer) w = (Return filepath, w1) ->
  access filepath w1 = (inr tt, w2) ->
  readFile filepath w2 = (inr imageBuffer, w3) ->
  getFaceDescriptor (IsBuffer imageBuffer) w3 = (Return storedDescriptor, w4) ->
  getFaceDescriptor newFaceBuffer w4 = (Return newDescriptor, w5) ->
  length storedDescriptor = length newDescriptor ->
  euclideanDistance storedDescriptor newDescriptor = inr distance ->
  verifyFace this userId newFaceBuffer w1
  = (Return (distance <=? MATCH_THRESHOLD)%float, w5).
Proof.
  intros Hid Hbuf Hsave Haccess Hread Hstored Hnew Hlen Hdist.
  assert (Hpath : filepath
                  = pathJoin (uploadDir this)
                      (toString userId ++ lit "-face.jpg")).
  { revert Hsave. unfold saveFaceImage, bind, await, ret.
    destruct (writeFile _ _ w) as [[e|[]] w0]; [discriminate|].
    intros H. now injection H. }
  unfold verifyFace. rewrite Hid, Hbuf. cbn [orb]. rewrite <- Hpath.
  unfold tryCatch at 1. unfold bind at 1, tryCatch, await at 1.
  rewrite Haccess. unfold bind at 1, await. rewrite Hread.
  unfold bind at 1. rewrite Hstored.
  unfold bind at 1. rewrite Hnew.
  unfold bind at 1. rewrite compareFaces_arrays.
  apply Nat.eqb_eq in Hlen. rewrite Hlen, Hdist. reflexivity.
Qed.

End FaceCompareExtras.

Module FaceCompareWitness.
Import Face FaceScript.

Lemma verifyFace_after_save_witness :
  verifyFace (RT := scriptedFaces) service alice (IsBuffer selfie) saved
  = (Return (0.5 <=? MATCH_THRESHOLD)%float, saved).
Proof.
  apply (verifyFace_after_save (RT := scriptedFaces) service alice portrait
           (IsBuffer selfie) [] (lit "uploads/faces/alice-face.jpg")
           saved saved saved saved saved [1; 0]%float [1; 0.5]%float
           0.5%float);
    reflexivity.
Defined.

End FaceCompareWitness.
